(** * ONVIF PTZ proxy: a shallow embedding and its checked properties

    The development follows the Python sources module by module:
    - [Py]            the few Python built-ins the proxy relies on
                      ([str.replace], [str.rstrip], [str.endswith], [in],
                      [min], [max]);
    - [Etree]         the part of lxml's element API the code calls;
    - [SoapHandler]   soap_handler.py  (request parsing, response building);
    - [World]         the camera, the tracker's fields and the monad in
                      which the stateful code runs;
    - [OnvifProxy]    onvif_proxy.py   (address rewriting, camera forwarder);
    - [PtzWrapper]    onvif_ptz_wrapper.py (move-status tracker);
    - [PtzInterceptor] ptz_interceptor.py;
    - [ProxyServer]   proxy_server.py  (capability splicer, request router);
    - [Reference]     one concrete runtime, for running examples.

    Python floats are modelled by exact rationals [Q]: every operation the
    tracker performs on them is a comparison, an addition or a product, and
    the properties below are order-theoretic.  NaN and the infinities, which
    [float()] accepts, are outside this model. *)

From Stdlib Require Import String Ascii List ZArith QArith Qminmax Qabs Bool Lia Lqa.
From stdpp Require Import base option list gmap strings pretty countable.
Import ListNotations.
Local Open Scope string_scope.

(** ** Python built-ins *)

Module Py.

(** A double quote, and text between double quotes. *)
Definition dq : string := String (ascii_of_nat 34) EmptyString.
Definition quoted (s : string) : string := dq +:+ s +:+ dq.
Definition nl : string := String (ascii_of_nat 10) EmptyString.

(** [old in s] for strings: [old] occurs somewhere in [s]. *)
Fixpoint contains (old s : string) : bool :=
  String.prefix old s ||
  match s with
  | EmptyString => false
  | String _ s' => contains old s'
  end.

(** [s.endswith(suffix)]. *)
Definition endswith (s suffix : string) : bool :=
  (String.length suffix <=? String.length s)%nat &&
  String.eqb
    (String.substring (String.length s - String.length suffix)
                      (String.length suffix) s)
    suffix.

(** [s.rstrip(c)] for a one-character set: drop every trailing [c]. *)
Fixpoint rstrip (c : ascii) (s : string) : string :=
  match s with
  | EmptyString => EmptyString
  | String a s' =>
      match rstrip c s' with
      | EmptyString => if Ascii.eqb a c then EmptyString else String a EmptyString
      | r => String a r
      end
  end.

(** [s.replace(old, new)] for a non-empty [old]: scan left to right; at a
    position where [old] starts, emit [new] and skip the matched text.
    [skip] counts the characters of a match still to be skipped. *)
Fixpoint replace_from (old new : string) (skip : nat) (s : string) : string :=
  match s with
  | EmptyString => EmptyString
  | String c s' =>
      match skip with
      | S k => replace_from old new k s'
      | O =>
          if String.prefix old s
          then new +:+ replace_from old new (String.length old - 1) s'
          else String c (replace_from old new 0 s')
      end
  end.

(** With an empty [old], Python inserts [new] before every character and
    at the end. *)
Fixpoint intersperse (new s : string) : string :=
  match s with
  | EmptyString => new
  | String c s' => new +:+ String c (intersperse new s')
  end.

Definition replace (s old new : string) : string :=
  match old with
  | EmptyString => intersperse new s
  | _ => replace_from old new 0 s
  end.

(** [min(a, b)] and [max(a, b)] on numbers: the first argument wins
    unless the second is strictly smaller (resp. larger). *)
Definition min (a b : Q) : Q := match (b ?= a)%Q with Lt => b | _ => a end.
Definition max (a b : Q) : Q := match (b ?= a)%Q with Gt => b | _ => a end.

(** [a < b] and [a != b] on numbers. *)
Definition lt (a b : Q) : bool := match (a ?= b)%Q with Lt => true | _ => false end.
Definition ne (a b : Q) : bool := negb (Qeq_bool a b).

(** Exceptions, by the classes the code distinguishes.  [ConnectTimeout]
    derives from both [ConnectionError] and [Timeout] in [requests]. *)
Inductive exc_class :=
| Timeout | ConnectTimeout | ReadTimeout | ConnectionError
| ValueError | TypeError | AttributeError | OtherError.

Record exn := Exn { exc_type : exc_class; exc_str : string }.

Definition is_Timeout (e : exn) : bool :=
  match exc_type e with
  | Timeout | ConnectTimeout | ReadTimeout => true
  | _ => false
  end.

Definition is_ConnectionError (e : exn) : bool :=
  match exc_type e with
  | ConnectionError | ConnectTimeout => true
  | _ => false
  end.

End Py.

(** ** The element tree of lxml, as far as the proxy uses it *)

Module Etree.
Import Py.

(** An element: its tag in Clark notation ([{namespace}local]), its
    attributes, its text and its children in document order.  Comments,
    processing instructions and tail text are not represented. *)
#[warnings="-register-all"]
Inductive element :=
| Element (tag : string) (attrib : list (string * string))
          (text : option string) (children : list element).

Definition tag (e : element) : string := let 'Element t _ _ _ := e in t.
Definition attrib (e : element) : list (string * string) := let 'Element _ a _ _ := e in a.
Definition text (e : element) : option string := let 'Element _ _ x _ := e in x.
Definition children (e : element) : list element := let 'Element _ _ _ c := e in c.

Definition clark (ns local : string) : string := "{" +:+ ns +:+ "}" +:+ local.

(** [elem.get(key)]: the first binding of [key]. *)
Fixpoint assoc (key : string) (l : list (string * string)) : option string :=
  match l with
  | [] => None
  | (k, v) :: l' => if String.eqb k key then Some v else assoc key l'
  end.

Definition get (e : element) (key : string) : option string := assoc key (attrib e).

(** [elem.iter()]: the element itself, then its descendants, in document
    order. *)
Fixpoint iter (e : element) : list element :=
  match e with
  | Element _ _ _ cs => e :: List.flat_map iter cs
  end.

Definition descendants (e : element) : list element :=
  List.flat_map iter (children e).

(** [elem.find('.//' + t)]: the first proper descendant tagged [t]. *)
Definition find_descendant (t : string) (e : element) : option element :=
  List.find (fun d => String.eqb (tag d) t) (descendants e).

(** [elem.find(t)] and [elem.findall(t)]: children tagged [t]. *)
Definition find (t : string) (e : element) : option element :=
  List.find (fun d => String.eqb (tag d) t) (children e).

Definition findall (t : string) (e : element) : list element :=
  List.filter (fun d => String.eqb (tag d) t) (children e).

(** [etree.QName(elem).localname]: the tag without its [{namespace}]. *)
Fixpoint after_brace (s : string) : string :=
  match s with
  | EmptyString => EmptyString
  | String c s' => if Ascii.eqb c "}" then s' else after_brace s'
  end.

Definition localname (e : element) : string :=
  match tag e with
  | String "{" rest => after_brace rest
  | t => t
  end.

(** In-place edit of the element that [find_descendant] returns: the
    tree in which the first proper descendant satisfying [p] is replaced
    by its image under [f]; [None] when there is none.  [update_in] walks
    a list of siblings in document order, looking at each sibling and
    then below it. *)
Fixpoint update_in (p : element -> bool) (f : element -> element)
    (below : element -> option element) (l : list element)
    : option (list element) :=
  match l with
  | [] => None
  | c :: l' =>
      if p c then Some (f c :: l')
      else match below c with
           | Some c' => Some (c' :: l')
           | None =>
               match update_in p f below l' with
               | Some l'' => Some (c :: l'')
               | None => None
               end
           end
  end.

Fixpoint update_first (p : element -> bool) (f : element -> element)
    (e : element) : option element :=
  match e with
  | Element t a x cs =>
      match update_in p f (update_first p f) cs with
      | Some cs' => Some (Element t a x cs')
      | None => None
      end
  end.

End Etree.

(** ** What the Python runtime and lxml contribute

    [float()] on a string, the conversion of a float inside an f-string,
    the formatting of a UTC timestamp, and lxml's parser and serialiser are
    library code.  The embedding is parametric in them. *)

Class Runtime := {
  (** [float(s)]: the number, or the [ValueError] it raises. *)
  float_of_str : string -> Py.exn + Q;
  (** [f"{v}"] for a float [v]. *)
  str_of_float : Q -> string;
  (** [t.strftime('%Y-%m-%dT%H:%M:%S.%f')[:-3] + 'Z'] for a clock reading. *)
  utc_str : Z -> string;
  (** [etree.fromstring(s.encode())]; [None] when it raises. *)
  fromstring : string -> option Etree.element;
  (** [etree.tostring(root, encoding='utf-8', xml_declaration=True).decode('utf-8')]. *)
  tostring : Etree.element -> string
}.

(** ** soap_handler.py *)

Module SoapHandler.
Import Py Etree.

Definition SOAP12 : string := "http://www.w3.org/2003/05/soap-envelope".
Definition SOAP11 : string := "http://schemas.xmlsoap.org/soap/envelope/".

Definition NAMESPACES : gmap string string :=
  list_to_map
    [ ("soap",   "http://www.w3.org/2003/05/soap-envelope");
      ("soap12", "http://www.w3.org/2003/05/soap-envelope");
      ("wsdl",   "http://schemas.xmlsoap.org/wsdl/");
      ("tds",    "http://www.onvif.org/ver10/device/wsdl");
      ("trt",    "http://www.onvif.org/ver10/media/wsdl");
      ("tptz",   "http://www.onvif.org/ver20/ptz/wsdl");
      ("tt",     "http://www.onvif.org/ver10/schema");
      ("ter",    "http://www.onvif.org/ver10/error") ].

Definition TPTZ : string := "http://www.onvif.org/ver20/ptz/wsdl".
Definition TT : string := "http://www.onvif.org/ver10/schema".

(** The request dictionaries the parsers build.  A [PanTilt] entry always
    carries [x] and [y], a [Zoom] entry always carries [x]; [space] is
    absent from the dictionaries the interceptor writes itself. *)
Record PanTilt := { pt_x : Q; pt_y : Q; pt_space : option string }.
Record Zoom := { z_x : Q; z_space : option string }.
Record PTZVector := { v_PanTilt : option PanTilt; v_Zoom : option Zoom }.

Record GetStatusParams := { gs_ProfileToken : option string }.
Record ContinuousMoveParams := {
  cm_ProfileToken : option string;
  cm_Velocity : PTZVector;
  cm_Timeout : option Q
}.
Record RelativeMoveParams := {
  rm_ProfileToken : option string;
  rm_Translation : PTZVector
}.
Record AbsoluteMoveParams := {
  am_ProfileToken : option string;
  am_Position : PTZVector
}.
Record StopParams := {
  st_ProfileToken : option string;
  st_PanTilt : bool;
  st_Zoom : bool
}.

Section WithRuntime.
Context {rt : Runtime}.

(** [parse_soap_request]: (operation, root); both [None] when the
    parser raises. *)
Definition parse_soap_request (soap_body : string)
    : option string * option element :=
  match fromstring soap_body with
  | None => (None, None)
  | Some root =>
      let body :=
        match find_descendant (clark SOAP12 "Body") root with
        | Some b => Some b
        | None => find_descendant (clark SOAP11 "Body") root
        end in
      match body with
      | Some (Element _ _ _ (operation_elem :: _)) =>
          (Some (localname operation_elem), Some root)
      | _ => (None, Some root)
      end
  end.

Definition find_element_by_localname (e : element) (local : string)
    : option element :=
  List.find (fun elem => endswith (tag elem) ("}" +:+ local)
                         || String.eqb (tag elem) local)
            (iter e).

(** [extract_text(element, './/tptz:' + local)]. *)
Definition extract_text (e : element) (local : string) : option string :=
  let found :=
    match find_descendant (clark TPTZ local) e with
    | Some f => Some f
    | None => find_element_by_localname e local
    end in
  found ≫= text.

(** Truth value of an optional string: [None] and [''] are false. *)
Definition truthy (o : option string) : bool :=
  match o with
  | Some (String _ _) => true
  | _ => false
  end.

(** The common prologue of the PTZ parsers. *)
Definition profile_token_of (root : element) : option string :=
  let profile_token := extract_text root "ProfileToken" in
  if truthy profile_token then profile_token
  else find_element_by_localname root "ProfileToken" ≫= text.

(** [float(elem.get(key, 0))]. *)
Definition float_attr (e : element) (key : string) : exn + Q :=
  match get e key with
  | Some s => float_of_str s
  | None => inr 0%Q
  end.

Definition pan_tilt_of (e : element) : exn + PanTilt :=
  match float_attr e "x" with
  | inl err => inl err
  | inr x =>
      match float_attr e "y" with
      | inl err => inl err
      | inr y =>
          inr {| pt_x := x; pt_y := y;
                 pt_space := Some (default "" (get e "space")) |}
      end
  end.

Definition zoom_of (e : element) : exn + Zoom :=
  match float_attr e "x" with
  | inl err => inl err
  | inr x => inr {| z_x := x; z_space := Some (default "" (get e "space")) |}
  end.

(** The [PanTilt] and [Zoom] entries read below a container element. *)
Definition vector_of (container : element) : exn + PTZVector :=
  match find_element_by_localname container "PanTilt" with
  | Some e =>
      match pan_tilt_of e with
      | inl err => inl err
      | inr pt =>
          match find_element_by_localname container "Zoom" with
          | Some z =>
              match zoom_of z with
              | inl err => inl err
              | inr zm => inr {| v_PanTilt := Some pt; v_Zoom := Some zm |}
              end
          | None => inr {| v_PanTilt := Some pt; v_Zoom := None |}
          end
      end
  | None =>
      match find_element_by_localname container "Zoom" with
      | Some z =>
          match zoom_of z with
          | inl err => inl err
          | inr zm => inr {| v_PanTilt := None; v_Zoom := Some zm |}
          end
      | None => inr {| v_PanTilt := None; v_Zoom := None |}
      end
  end.

Definition parse_ptz_getstatus (root : element) : GetStatusParams :=
  {| gs_ProfileToken := profile_token_of root |}.

(** [re.search(r'PT(\d+(?:\.\d+)?)S', text)] followed by [float] of the
    group: the runtime's [float] applied to the first match. *)
Definition is_digit (c : ascii) : bool :=
  let n := nat_of_ascii c in (48 <=? n)%nat && (n <=? 57)%nat.

Fixpoint take_digits (s : string) : string * string :=
  match s with
  | String c s' =>
      if is_digit c then let '(d, r) := take_digits s' in (String c d, r)
      else (EmptyString, s)
  | EmptyString => (EmptyString, EmptyString)
  end.

(** The group matched by [(\d+(?:\.\d+)?)S] at the start of [s]: the
    regex prefers the fractional form and backtracks to the integer
    one. *)
Definition match_seconds (s : string) : option string :=
  let '(int_part, r) := take_digits s in
  match int_part with
  | EmptyString => None
  | _ =>
      let fractional :=
        match r with
        | String "." r' =>
            let '(frac, r'') := take_digits r' in
            match frac, r'' with
            | String _ _, String "S" _ => Some (int_part +:+ "." +:+ frac)
            | _, _ => None
            end
        | _ => None
        end in
      match fractional with
      | Some g => Some g
      | None =>
          match r with
          | String "S" _ => Some int_part
          | _ => None
          end
      end
  end.

Fixpoint search_duration (s : string) : option string :=
  match s with
  | EmptyString => None
  | String c s' =>
      match (if String.prefix "PT" s
             then match_seconds (String.substring 2 (String.length s) s)
             else None) with
      | Some g => Some g
      | None => search_duration s'
      end
  end.

Definition parse_ptz_continuous_move (root : element)
    : exn + ContinuousMoveParams :=
  let profile_token := profile_token_of root in
  match vector_of root with
  | inl err => inl err
  | inr velocity =>
      let timeout_text := find_element_by_localname root "Timeout" ≫= text in
      let timeout :=
        if truthy timeout_text
        then match search_duration (default "" timeout_text) with
             | Some g => match float_of_str g with
                         | inr t => inr (Some t)
                         | inl err => inl err
                         end
             | None => inr None
             end
        else inr None in
      match timeout with
      | inl err => inl err
      | inr t =>
          inr {| cm_ProfileToken := profile_token;
                 cm_Velocity := velocity;
                 cm_Timeout := t |}
      end
  end.

Definition empty_vector : PTZVector := {| v_PanTilt := None; v_Zoom := None |}.

Definition parse_ptz_relative_move (root : element)
    : exn + RelativeMoveParams :=
  let profile_token := profile_token_of root in
  match find_element_by_localname root "Translation" with
  | Some translation_elem =>
      match vector_of translation_elem with
      | inl err => inl err
      | inr translation =>
          inr {| rm_ProfileToken := profile_token;
                 rm_Translation := translation |}
      end
  | None =>
      inr {| rm_ProfileToken := profile_token;
             rm_Translation := empty_vector |}
  end.

Definition parse_ptz_absolute_move (root : element)
    : exn + AbsoluteMoveParams :=
  let profile_token := profile_token_of root in
  match find_element_by_localname root "Position" with
  | Some position_elem =>
      match vector_of position_elem with
      | inl err => inl err
      | inr position =>
          inr {| am_ProfileToken := profile_token;
                 am_Position := position |}
      end
  | None =>
      inr {| am_ProfileToken := profile_token;
             am_Position := empty_vector |}
  end.

(** [s.lower()] on ASCII letters. *)
Definition lower_ascii (c : ascii) : ascii :=
  let n := nat_of_ascii c in
  if (65 <=? n)%nat && (n <=? 90)%nat then ascii_of_nat (n + 32) else c.

Fixpoint lower (s : string) : string :=
  match s with
  | EmptyString => EmptyString
  | String c s' => String (lower_ascii c) (lower s')
  end.

Definition flag_of (o : option string) : bool :=
  if truthy o then String.eqb (lower (default "" o)) "true" else true.

Definition parse_ptz_stop (root : element) : StopParams :=
  {| st_ProfileToken := profile_token_of root;
     st_PanTilt := flag_of (extract_text root "PanTilt");
     st_Zoom := flag_of (extract_text root "Zoom") |}.

(** What [GetStatus] hands to the response builder. *)
Record PTZStatus := {
  MoveStatus_PanTilt : string;
  MoveStatus_Zoom : string;
  Position_PanTilt_x : Q;
  Position_PanTilt_y : Q;
  Position_Zoom_x : Q;
  UTCTime : Z
}.

Definition build_ptz_status_response (status : PTZStatus) : string :=
  let utc_time := utc_str (UTCTime status) in
  String.concat ""
    [ "<?xml version="; quoted "1.0"; " encoding="; quoted "UTF-8"; "?>"; nl;
      "<SOAP-ENV:Envelope xmlns:SOAP-ENV=";
         quoted "http://www.w3.org/2003/05/soap-envelope"; nl;
      "                   xmlns:tptz="; quoted "http://www.onvif.org/ver20/ptz/wsdl"; nl;
      "                   xmlns:tt="; quoted "http://www.onvif.org/ver10/schema"; ">"; nl;
      "    <SOAP-ENV:Body>"; nl;
      "        <tptz:GetStatusResponse>"; nl;
      "            <tptz:PTZStatus>"; nl;
      "                <tt:Position>"; nl;
      "                    <tt:PanTilt x=";
         quoted (str_of_float (Position_PanTilt_x status)); " y=";
         quoted (str_of_float (Position_PanTilt_y status)); nl;
      "                                space=";
         quoted "http://www.onvif.org/ver10/tptz/PanTiltSpaces/PositionGenericSpace";
         "/>"; nl;
      "                    <tt:Zoom x=";
         quoted (str_of_float (Position_Zoom_x status)); nl;
      "                            space=";
         quoted "http://www.onvif.org/ver10/tptz/ZoomSpaces/PositionGenericSpace";
         "/>"; nl;
      "                </tt:Position>"; nl;
      "                <tt:MoveStatus>"; nl;
      "                    <tt:PanTilt>"; MoveStatus_PanTilt status; "</tt:PanTilt>"; nl;
      "                    <tt:Zoom>"; MoveStatus_Zoom status; "</tt:Zoom>"; nl;
      "                </tt:MoveStatus>"; nl;
      "                <tt:UTCTime>"; utc_time; "</tt:UTCTime>"; nl;
      "            </tptz:PTZStatus>"; nl;
      "        </tptz:GetStatusResponse>"; nl;
      "    </SOAP-ENV:Body>"; nl;
      "</SOAP-ENV:Envelope>" ].

Definition build_simple_response (operation namespace : string) : string :=
  let ns_url := default TPTZ (NAMESPACES !! namespace) in
  String.concat ""
    [ "<?xml version="; quoted "1.0"; " encoding="; quoted "UTF-8"; "?>"; nl;
      "<SOAP-ENV:Envelope xmlns:SOAP-ENV=";
         quoted "http://www.w3.org/2003/05/soap-envelope"; nl;
      "                   xmlns:"; namespace; "="; quoted ns_url; ">"; nl;
      "    <SOAP-ENV:Body>"; nl;
      "        <"; namespace; ":"; operation; "Response/>"; nl;
      "    </SOAP-ENV:Body>"; nl;
      "</SOAP-ENV:Envelope>" ].

Definition build_fault_response (faultcode faultstring detail : string) : string :=
  let detail_elem :=
    match detail with
    | EmptyString => EmptyString
    | _ => "<detail>" +:+ detail +:+ "</detail>"
    end in
  String.concat ""
    [ "<?xml version="; quoted "1.0"; " encoding="; quoted "UTF-8"; "?>"; nl;
      "<SOAP-ENV:Envelope xmlns:SOAP-ENV=";
         quoted "http://www.w3.org/2003/05/soap-envelope"; ">"; nl;
      "    <SOAP-ENV:Body>"; nl;
      "        <SOAP-ENV:Fault>"; nl;
      "            <SOAP-ENV:Code>"; nl;
      "                <SOAP-ENV:Value>"; faultcode; "</SOAP-ENV:Value>"; nl;
      "            </SOAP-ENV:Code>"; nl;
      "            <SOAP-ENV:Reason>"; nl;
      "                <SOAP-ENV:Text xml:lang="; quoted "en"; ">"; faultstring;
                        "</SOAP-ENV:Text>"; nl;
      "            </SOAP-ENV:Reason>"; nl;
      "            "; detail_elem; nl;
      "        </SOAP-ENV:Fault>"; nl;
      "    </SOAP-ENV:Body>"; nl;
      "</SOAP-ENV:Envelope>" ].

Definition build_service_capabilities_response : string :=
  String.concat ""
    [ "<?xml version="; quoted "1.0"; " encoding="; quoted "UTF-8"; "?>"; nl;
      "<SOAP-ENV:Envelope xmlns:SOAP-ENV=";
         quoted "http://www.w3.org/2003/05/soap-envelope"; nl;
      "                   xmlns:tptz="; quoted "http://www.onvif.org/ver20/ptz/wsdl"; nl;
      "                   xmlns:tt="; quoted "http://www.onvif.org/ver10/schema"; ">"; nl;
      "    <SOAP-ENV:Body>"; nl;
      "        <tptz:GetServiceCapabilitiesResponse>"; nl;
      "            <tptz:Capabilities EFlip="; quoted "false";
         " Reverse="; quoted "false";
         " GetCompatibleConfigurations="; quoted "true";
         " MoveStatus="; quoted "true"; "/>"; nl;
      "        </tptz:GetServiceCapabilitiesResponse>"; nl;
      "    </SOAP-ENV:Body>"; nl;
      "</SOAP-ENV:Envelope>" ].

End WithRuntime.

End SoapHandler.

(** ** The camera and the process state

    The camera is reached in two ways: through the zeep PTZ binding held
    by the wrapper ([self.ptz_service]) and through [requests.post] in the
    forwarder.  What it answers may depend on everything sent before. *)

Module World.
Import Py SoapHandler.

(** One outbound [requests.post]: what is sent, and what comes back. *)
Record http_request := {
  req_url : string;
  req_data : string;
  req_content_type : string;
  req_user_agent : string;
  req_timeout : Z
}.

Inductive http_outcome :=
| HttpResponse (text : string) (status_code : Z)
| HttpRaise (e : exn).


(** A call on [self.ptz_service]. *)
Inductive ptz_request :=
| CamContinuousMove (request : ContinuousMoveParams)
| CamRelativeMove (request : RelativeMoveParams)
| CamAbsoluteMove (request : AbsoluteMoveParams)
| CamStop (request : StopParams).

Inductive outbound :=
| ZeepGetStatus (request : GetStatusParams)
| Zeep (call : ptz_request)
| Post (request : http_request).

Record Camera := {
  (** a PTZ call returns ([None]) or raises *)
  ptz_service : list outbound -> ptz_request -> option exn;
  ptz_GetStatus : list outbound -> GetStatusParams -> exn + PTZStatus;
  requests_post : list outbound -> http_request -> http_outcome
}.

Inductive move_status := IDLE | MOVING.

Definition status_str (m : move_status) : string :=
  match m with IDLE => "IDLE" | MOVING => "MOVING" end.

(** A [threading.Timer]: [alive] once started, until it fires or is
    cancelled. *)
Record Timer := { interval : Q; alive : bool }.

Record Position := { PanTilt_x : Q; PanTilt_y : Q; Zoom_x : Q }.

(** The mutable fields of [ONVIFPTZWrapper]. *)
Record ONVIFPTZWrapper := {
  profile_token : string;
  _pan_tilt_status : move_status;
  _zoom_status : move_status;
  _estimated_position : Position;
  _stop_timers : gmap string Timer;
  _native_status_support : bool
}.

(** A started daemon thread of the interceptor: sleep, then send the
    zero-velocity [ContinuousMove]. *)
Record Thread := { sleep : Q; stop_params : ContinuousMoveParams }.

Record world := {
  wrapper : ONVIFPTZWrapper;
  sent : list outbound;       (** calls issued to the camera, oldest first *)
  threads : list Thread;      (** threads started, oldest first *)
  utcnow : Z                  (** the clock *)
}.

Definition set_wrapper (f : ONVIFPTZWrapper -> ONVIFPTZWrapper) (w : world) : world :=
  {| wrapper := f (wrapper w); sent := sent w; threads := threads w; utcnow := utcnow w |}.
Definition record_sent (o : outbound) (w : world) : world :=
  {| wrapper := wrapper w; sent := sent w ++ [o]; threads := threads w; utcnow := utcnow w |}.
Definition start_thread (t : Thread) (w : world) : world :=
  {| wrapper := wrapper w; sent := sent w; threads := threads w ++ [t]; utcnow := utcnow w |}.

(** Computations that read and write the world and may raise; what was
    written before an exception stays written. *)
Definition M (A : Type) : Type := world -> (exn + A) * world.

Definition ret {A} (a : A) : M A := fun w => (inr a, w).
Definition bind {A B} (c : M A) (f : A -> M B) : M B := fun w =>
  match c w with
  | (inr a, w') => f a w'
  | (inl e, w') => (inl e, w')
  end.

Declare Scope M_scope.
Delimit Scope M_scope with M.
Bind Scope M_scope with M.
Notation "'let*' x := c 'in' k" := (bind c (fun x => k))
  (at level 10, x name, c at level 100, k at level 200) : M_scope.
Notation "'let*' ' p := c 'in' k" := (bind c (fun x => match x with p => k end))
  (at level 10, p pattern, c at level 100, k at level 200) : M_scope.
Notation "c >> k" := (bind c (fun _ => k))
  (at level 100, k at level 200, right associativity) : M_scope.
Open Scope M_scope.

Definition raise {A} (e : exn) : M A := fun w => (inl e, w).
Definition modify (f : world -> world) : M unit := fun w => (inr tt, f w).
Definition gets {A} (f : world -> A) : M A := fun w => (inr (f w), w).
(** [try: c except Exception as e: h e]. *)
Definition try_except {A} (c : M A) (h : exn -> M A) : M A := fun w =>
  match c w with
  | (inr a, w') => (inr a, w')
  | (inl e, w') => h e w'
  end.
Definition lift {A} (r : exn + A) : M A := fun w => (r, w).
Definition when (b : bool) (c : M unit) : M unit := if b then c else ret tt.

Section WithCamera.
Variable cam : Camera.

Definition call_ptz (r : ptz_request) : M unit := fun w =>
  let w' := record_sent (Zeep r) w in
  match ptz_service cam (sent w) r with
  | None => (inr tt, w')
  | Some e => (inl e, w')
  end.

Definition call_GetStatus (r : GetStatusParams) : M PTZStatus := fun w =>
  (ptz_GetStatus cam (sent w) r, record_sent (ZeepGetStatus r) w).

Definition post (r : http_request) : M http_outcome := fun w =>
  (inr (requests_post cam (sent w) r), record_sent (Post r) w).
End WithCamera.

End World.

(** ** onvif_proxy.py: address rewriting and the camera forwarder *)

Module OnvifProxy.
Import Py World.

(** The fields of [ONVIFServiceProxy] that the methods read. *)
Record ONVIFServiceProxy := {
  camera_ip : string;
  camera_port : Z;
  proxy_host : string;
  proxy_port : Z
}.

(** The formatted port tokens [f':{port}/'] and [f':{port}<']. *)
Definition port_slash (p : Z) : string := ":" +:+ pretty p +:+ "/".
Definition port_lt (p : Z) : string := ":" +:+ pretty p +:+ "<".

Definition rewrite_request (self : ONVIFServiceProxy) (soap_body : string) : string :=
  let soap_body := replace soap_body (proxy_host self) (camera_ip self) in
  let soap_body := replace soap_body (port_slash (proxy_port self)) (port_slash (camera_port self)) in
  let soap_body := replace soap_body (port_lt (proxy_port self)) (port_lt (camera_port self)) in
  soap_body.

Definition rewrite_response (self : ONVIFServiceProxy) (soap_response : string) : string :=
  let soap_response := replace soap_response (camera_ip self) (proxy_host self) in
  let soap_response := replace soap_response (port_slash (camera_port self)) (port_slash (proxy_port self)) in
  let soap_response := replace soap_response (port_lt (camera_port self)) (port_lt (proxy_port self)) in
  soap_response.

(** [self.service_urls]. *)
Definition base_url (self : ONVIFServiceProxy) : string :=
  "http://" +:+ camera_ip self +:+ ":" +:+ pretty (camera_port self) +:+ "/onvif/".

Definition service_urls (self : ONVIFServiceProxy) : gmap string string :=
  list_to_map
    [ ("device_service",  base_url self +:+ "device_service");
      ("media_service",   base_url self +:+ "media_service");
      ("ptz_service",     base_url self +:+ "ptz_service");
      ("imaging_service", base_url self +:+ "imaging_service");
      ("events_service",  base_url self +:+ "events_service") ].

(** The three fault bodies are the same SOAP 1.2 envelope around a
    [Code/Value] and a [Reason/Text]. *)
Definition fault_envelope (value text : string) : string :=
  String.concat ""
    [ "<?xml version="; quoted "1.0"; " encoding="; quoted "UTF-8"; "?>"; nl;
      "<SOAP-ENV:Envelope xmlns:SOAP-ENV=";
         quoted "http://www.w3.org/2003/05/soap-envelope"; ">"; nl;
      "    <SOAP-ENV:Body>"; nl;
      "        <SOAP-ENV:Fault>"; nl;
      "            <SOAP-ENV:Code>"; nl;
      "                <SOAP-ENV:Value>"; value; "</SOAP-ENV:Value>"; nl;
      "            </SOAP-ENV:Code>"; nl;
      "            <SOAP-ENV:Reason>"; nl;
      "                <SOAP-ENV:Text xml:lang="; quoted "en"; ">"; text;
                        "</SOAP-ENV:Text>"; nl;
      "            </SOAP-ENV:Reason>"; nl;
      "        </SOAP-ENV:Fault>"; nl;
      "    </SOAP-ENV:Body>"; nl;
      "</SOAP-ENV:Envelope>" ].

Definition _timeout_fault : string :=
  String.concat ""
    [ "<?xml version="; quoted "1.0"; " encoding="; quoted "UTF-8"; "?>"; nl;
      "<SOAP-ENV:Envelope xmlns:SOAP-ENV=";
         quoted "http://www.w3.org/2003/05/soap-envelope"; ">"; nl;
      "    <SOAP-ENV:Body>"; nl;
      "        <SOAP-ENV:Fault>"; nl;
      "            <SOAP-ENV:Code>"; nl;
      "                <SOAP-ENV:Value>SOAP-ENV:Receiver</SOAP-ENV:Value>"; nl;
      "            </SOAP-ENV:Code>"; nl;
      "            <SOAP-ENV:Reason>"; nl;
      "                <SOAP-ENV:Text xml:lang="; quoted "en";
                        ">Request timeout</SOAP-ENV:Text>"; nl;
      "            </SOAP-ENV:Reason>"; nl;
      "        </SOAP-ENV:Fault>"; nl;
      "    </SOAP-ENV:Body>"; nl;
      "</SOAP-ENV:Envelope>" ].

Definition _connection_fault : string :=
  String.concat ""
    [ "<?xml version="; quoted "1.0"; " encoding="; quoted "UTF-8"; "?>"; nl;
      "<SOAP-ENV:Envelope xmlns:SOAP-ENV=";
         quoted "http://www.w3.org/2003/05/soap-envelope"; ">"; nl;
      "    <SOAP-ENV:Body>"; nl;
      "        <SOAP-ENV:Fault>"; nl;
      "            <SOAP-ENV:Code>"; nl;
      "                <SOAP-ENV:Value>SOAP-ENV:Receiver</SOAP-ENV:Value>"; nl;
      "            </SOAP-ENV:Code>"; nl;
      "            <SOAP-ENV:Reason>"; nl;
      "                <SOAP-ENV:Text xml:lang="; quoted "en";
                        ">Connection error to camera</SOAP-ENV:Text>"; nl;
      "            </SOAP-ENV:Reason>"; nl;
      "        </SOAP-ENV:Fault>"; nl;
      "    </SOAP-ENV:Body>"; nl;
      "</SOAP-ENV:Envelope>" ].

Definition _generic_fault (message : string) : string :=
  String.concat ""
    [ "<?xml version="; quoted "1.0"; " encoding="; quoted "UTF-8"; "?>"; nl;
      "<SOAP-ENV:Envelope xmlns:SOAP-ENV=";
         quoted "http://www.w3.org/2003/05/soap-envelope"; ">"; nl;
      "    <SOAP-ENV:Body>"; nl;
      "        <SOAP-ENV:Fault>"; nl;
      "            <SOAP-ENV:Code>"; nl;
      "                <SOAP-ENV:Value>SOAP-ENV:Receiver</SOAP-ENV:Value>"; nl;
      "            </SOAP-ENV:Code>"; nl;
      "            <SOAP-ENV:Reason>"; nl;
      "                <SOAP-ENV:Text xml:lang="; quoted "en"; ">"; message;
                        "</SOAP-ENV:Text>"; nl;
      "            </SOAP-ENV:Reason>"; nl;
      "        </SOAP-ENV:Fault>"; nl;
      "    </SOAP-ENV:Body>"; nl;
      "</SOAP-ENV:Envelope>" ].

Definition build_request (self : ONVIFServiceProxy) (service soap_body : string)
    (timeout : Z) : http_request :=
  let service_url :=
    match service_urls self !! service with
    | Some (String _ _ as url) => url
    | _ => base_url self +:+ service
    end in
  let rewritten_body := rewrite_request self soap_body in
  {| req_url := service_url;
     req_data := rewritten_body;
     req_content_type := "application/soap+xml; charset=utf-8";
     req_user_agent := "ONVIF-Proxy/1.0";
     req_timeout := timeout |}.

(** [forward_request]: the pair (response text, status code). *)
Definition forward_request (cam : Camera) (self : ONVIFServiceProxy)
    (service soap_body : string) (timeout : Z) : M (string * Z) :=
  let* outcome := post cam (build_request self service soap_body timeout) in
  match outcome with
  | HttpResponse text status_code => ret (rewrite_response self text, status_code)
  | HttpRaise e =>
      if is_Timeout e then ret (_timeout_fault, 500%Z)
      else if is_ConnectionError e then ret (_connection_fault, 500%Z)
      else ret (_generic_fault (exc_str e), 500%Z)
  end.

End OnvifProxy.

(** ** onvif_ptz_wrapper.py: the move-status tracker *)

Module PtzWrapper.
Import Py SoapHandler World.

Definition with_pan_tilt_status (s : move_status) (self : ONVIFPTZWrapper) :=
  {| profile_token := profile_token self;
     _pan_tilt_status := s;
     _zoom_status := _zoom_status self;
     _estimated_position := _estimated_position self;
     _stop_timers := _stop_timers self;
     _native_status_support := _native_status_support self |}.

Definition with_zoom_status (s : move_status) (self : ONVIFPTZWrapper) :=
  {| profile_token := profile_token self;
     _pan_tilt_status := _pan_tilt_status self;
     _zoom_status := s;
     _estimated_position := _estimated_position self;
     _stop_timers := _stop_timers self;
     _native_status_support := _native_status_support self |}.

Definition with_position (p : Position) (self : ONVIFPTZWrapper) :=
  {| profile_token := profile_token self;
     _pan_tilt_status := _pan_tilt_status self;
     _zoom_status := _zoom_status self;
     _estimated_position := p;
     _stop_timers := _stop_timers self;
     _native_status_support := _native_status_support self |}.

Definition with_timers (t : gmap string Timer) (self : ONVIFPTZWrapper) :=
  {| profile_token := profile_token self;
     _pan_tilt_status := _pan_tilt_status self;
     _zoom_status := _zoom_status self;
     _estimated_position := _estimated_position self;
     _stop_timers := t;
     _native_status_support := _native_status_support self |}.

Definition cancel (t : Timer) : Timer := {| interval := interval t; alive := false |}.

Definition is_moving (s : move_status) : bool :=
  match s with MOVING => true | IDLE => false end.

Definition _set_pan_tilt_status (status : move_status) (duration : Q)
    (self : ONVIFPTZWrapper) : ONVIFPTZWrapper :=
  let self := with_pan_tilt_status status self in
  let self := with_timers (alter cancel "pantilt" (_stop_timers self)) self in
  if is_moving status && lt 0 duration
  then with_timers (<["pantilt" := {| interval := duration; alive := true |}]>
                      (_stop_timers self)) self
  else self.

Definition _set_zoom_status (status : move_status) (duration : Q)
    (self : ONVIFPTZWrapper) : ONVIFPTZWrapper :=
  let self := with_zoom_status status self in
  let self := with_timers (alter cancel "zoom" (_stop_timers self)) self in
  if is_moving status && lt 0 duration
  then with_timers (<["zoom" := {| interval := duration; alive := true |}]>
                      (_stop_timers self)) self
  else self.

(** A timer started by [_set_pan_tilt_status] or [_set_zoom_status]
    fires: its [set_idle] closure runs, unless it was cancelled. *)
Definition timer_fires (key : string) (self : ONVIFPTZWrapper) : ONVIFPTZWrapper :=
  match _stop_timers self !! key with
  | Some t =>
      if alive t then
        let self := with_timers (<[key := cancel t]> (_stop_timers self)) self in
        if String.eqb key "pantilt" then with_pan_tilt_status IDLE self
        else if String.eqb key "zoom" then with_zoom_status IDLE self
        else self
      else self
  | None => self
  end.

Definition _update_estimated_position (pan_tilt : option PanTilt)
    (zoom : option Zoom) (duration : Q) (velocity : option PTZVector)
    (self : ONVIFPTZWrapper) : ONVIFPTZWrapper :=
  let pos := _estimated_position self in
  let '(x, y) :=
    match pan_tilt with
    | Some pt => ((PanTilt_x pos + pt_x pt)%Q, (PanTilt_y pos + pt_y pt)%Q)
    | None =>
        match velocity ≫= v_PanTilt with
        | Some vel =>
            if lt 0 duration
            then ((PanTilt_x pos + pt_x vel * duration * (1 # 10))%Q,
                  (PanTilt_y pos + pt_y vel * duration * (1 # 10))%Q)
            else (PanTilt_x pos, PanTilt_y pos)
        | None => (PanTilt_x pos, PanTilt_y pos)
        end
    end in
  let z :=
    match zoom with
    | Some zm => (Zoom_x pos + z_x zm)%Q
    | None =>
        match velocity ≫= v_Zoom with
        | Some vel =>
            if lt 0 duration
            then (Zoom_x pos + z_x vel * duration * (1 # 10))%Q
            else Zoom_x pos
        | None => Zoom_x pos
        end
    end in
  with_position
    {| PanTilt_x := max (-1) (min 1 x);
       PanTilt_y := max (-1) (min 1 y);
       Zoom_x := max 0 (min 1 z) |}
    self.

(** The simulated status that [GetStatus] assembles under the lock. *)
Definition simulated_status (self : ONVIFPTZWrapper) (now : Z) : PTZStatus :=
  {| MoveStatus_PanTilt := status_str (_pan_tilt_status self);
     MoveStatus_Zoom := status_str (_zoom_status self);
     Position_PanTilt_x := PanTilt_x (_estimated_position self);
     Position_PanTilt_y := PanTilt_y (_estimated_position self);
     Position_Zoom_x := Zoom_x (_estimated_position self);
     UTCTime := now |}.

(** [ContinuousMove]: the zero-velocity test.  An absent axis counts as
    zero. *)
Definition is_stop (velocity : PTZVector) : bool :=
  let is_stop := true in
  let is_stop :=
    match v_PanTilt velocity with
    | Some pt_dict =>
        if ne (pt_x pt_dict) 0 || ne (pt_y pt_dict) 0 then false else is_stop
    | None => is_stop
    end in
  let is_stop :=
    match v_Zoom velocity with
    | Some z_dict => if ne (z_x z_dict) 0 then false else is_stop
    | None => is_stop
    end in
  is_stop.

(** [ContinuousMove]: [if timeout: duration = float(timeout) else: 5.0];
    a zero timeout is false. *)
Definition move_duration (timeout : option Q) : Q :=
  match timeout with
  | Some t => if ne t 0 then t else 5%Q
  | None => 5%Q
  end.

Section WithCamera.
Variable cam : Camera.

Definition simulated : M PTZStatus :=
  gets (fun w => simulated_status (wrapper w) (utcnow w)).

Definition GetStatus (request : GetStatusParams) : M PTZStatus :=
  let* native := gets (fun w => _native_status_support (wrapper w)) in
  if native
  then try_except (call_GetStatus cam request) (fun _ => simulated)
  else simulated.

Definition ContinuousMove (request : ContinuousMoveParams) : M unit :=
  call_ptz cam (CamContinuousMove request) >>
  let velocity := cm_Velocity request in
  let timeout := cm_Timeout request in
  let pan_tilt := v_PanTilt velocity in
  let zoom := v_Zoom velocity in
  if is_stop velocity then
    modify (set_wrapper (_set_pan_tilt_status IDLE 0)) >>
    modify (set_wrapper (_set_zoom_status IDLE 0))
  else
    let duration := move_duration timeout in
    when (bool_decide (is_Some pan_tilt))
         (modify (set_wrapper (_set_pan_tilt_status MOVING duration))) >>
    when (bool_decide (is_Some zoom))
         (modify (set_wrapper (_set_zoom_status MOVING duration))) >>
    modify (set_wrapper
              (_update_estimated_position None None duration (Some velocity))).

Definition RelativeMove (request : RelativeMoveParams) : M unit :=
  call_ptz cam (CamRelativeMove request) >>
  let duration := 2%Q in
  let translation := rm_Translation request in
  match v_PanTilt translation with
  | Some pt_dict =>
      modify (set_wrapper (_set_pan_tilt_status MOVING duration)) >>
      modify (set_wrapper (_update_estimated_position (Some pt_dict) None 0 None))
  | None => ret tt
  end >>
  match v_Zoom translation with
  | Some z_dict =>
      modify (set_wrapper (_set_zoom_status MOVING duration)) >>
      modify (set_wrapper (_update_estimated_position None (Some z_dict) 0 None))
  | None => ret tt
  end.

Definition AbsoluteMove (request : AbsoluteMoveParams) : M unit :=
  call_ptz cam (CamAbsoluteMove request) >>
  let duration := 3%Q in
  let position := am_Position request in
  match v_PanTilt position with
  | Some pan_tilt =>
      modify (set_wrapper (_set_pan_tilt_status MOVING duration)) >>
      modify (set_wrapper (fun self =>
        with_position
          {| PanTilt_x := pt_x pan_tilt;
             PanTilt_y := pt_y pan_tilt;
             Zoom_x := Zoom_x (_estimated_position self) |} self))
  | None => ret tt
  end >>
  match v_Zoom position with
  | Some zoom =>
      modify (set_wrapper (_set_zoom_status MOVING duration)) >>
      modify (set_wrapper (fun self =>
        with_position
          {| PanTilt_x := PanTilt_x (_estimated_position self);
             PanTilt_y := PanTilt_y (_estimated_position self);
             Zoom_x := z_x zoom |} self))
  | None => ret tt
  end.

Definition Stop (request : StopParams) : M unit :=
  call_ptz cam (CamStop request) >>
  when (st_PanTilt request) (modify (set_wrapper (_set_pan_tilt_status IDLE 0))) >>
  when (st_Zoom request) (modify (set_wrapper (_set_zoom_status IDLE 0))).

Definition cleanup (self : ONVIFPTZWrapper) : ONVIFPTZWrapper :=
  with_timers ∅ self.

End WithCamera.

End PtzWrapper.

(** ** ptz_interceptor.py *)

Module PtzInterceptor.
Import Py Etree SoapHandler World PtzWrapper.

Section WithRuntime.
Context {rt : Runtime}.
Variable cam : Camera.

(** Each handler wraps its body in [try ... except Exception: raise]. *)
Definition reraise {A} (c : M A) : M A := try_except c raise.

Definition _handle_get_service_capabilities (root : element) : M (string * Z) :=
  reraise (
    let response := build_service_capabilities_response in
    ret (response, 200%Z)).

Definition _handle_get_status (root : element) : M (string * Z) :=
  reraise (
    let params := parse_ptz_getstatus root in
    let* status := GetStatus cam params in
    let response := build_ptz_status_response status in
    ret (response, 200%Z)).

Definition _handle_continuous_move (root : element) : M (string * Z) :=
  reraise (
    let* params := lift (parse_ptz_continuous_move root) in
    ContinuousMove cam params >>
    let response := build_simple_response "ContinuousMove" "tptz" in
    ret (response, 200%Z)).

(** The dictionary [{'PanTilt': {'x': 0, 'y': 0}, 'Zoom': {'x': 0}}]. *)
Definition zero_velocity : PTZVector :=
  {| v_PanTilt := Some {| pt_x := 0; pt_y := 0; pt_space := None |};
     v_Zoom := Some {| z_x := 0; z_space := None |} |}.

Definition _handle_relative_move (root : element) : M (string * Z) :=
  reraise (
    let* params := lift (parse_ptz_relative_move root) in
    let translation := rm_Translation params in
    let pan_tilt := v_PanTilt translation in
    let zoom := v_Zoom translation in
    match pan_tilt with
    | Some pan_tilt =>
        let x_trans := pt_x pan_tilt in
        let y_trans := pt_y pan_tilt in
        let velocity_x :=
          if lt 0 x_trans then (1 # 2)%Q
          else if lt x_trans 0 then (- (1 # 2))%Q else 0%Q in
        let velocity_y :=
          if lt 0 y_trans then (1 # 2)%Q
          else if lt y_trans 0 then (- (1 # 2))%Q else 0%Q in
        let duration :=
          max (3 # 10) (min 5 (Qabs x_trans * 10 + Qabs y_trans * 10)%Q) in
        let start_params :=
          {| cm_ProfileToken := rm_ProfileToken params;
             cm_Velocity :=
               {| v_PanTilt := Some {| pt_x := velocity_x; pt_y := velocity_y;
                                       pt_space := None |};
                  v_Zoom := Some {| z_x := 0; z_space := None |} |};
             cm_Timeout := None |} in
        ContinuousMove cam start_params >>
        modify (start_thread
                  {| sleep := duration;
                     stop_params :=
                       {| cm_ProfileToken := rm_ProfileToken params;
                          cm_Velocity := zero_velocity;
                          cm_Timeout := None |} |})
    | None =>
        match zoom with
        | Some _ => RelativeMove cam params
        | None => ret tt
        end
    end >>
    let response := build_simple_response "RelativeMove" "tptz" in
    ret (response, 200%Z)).

(** What a started thread does once its sleep is over; an exception
    ends the thread and nothing else. *)
Definition stop_movement (t : Thread) : M unit :=
  try_except (ContinuousMove cam (stop_params t)) (fun _ => ret tt).

Definition _handle_absolute_move (root : element) : M (string * Z) :=
  reraise (
    let* params := lift (parse_ptz_absolute_move root) in
    AbsoluteMove cam params >>
    let response := build_simple_response "AbsoluteMove" "tptz" in
    ret (response, 200%Z)).

Definition _handle_stop (root : element) : M (string * Z) :=
  reraise (
    let params := parse_ptz_stop root in
    let stop_params :=
      {| cm_ProfileToken := st_ProfileToken params;
         cm_Velocity := zero_velocity;
         cm_Timeout := None |} in
    ContinuousMove cam stop_params >>
    let response := build_simple_response "Stop" "tptz" in
    ret (response, 200%Z)).

Definition handled (c : M (string * Z)) : M (option (string * Z)) :=
  let* r := c in ret (Some r).

(** [intercept]: [Some (soap_response, status_code)], or [None] for
    [(None, None)]. *)
Definition intercept (operation : string) (root : element)
    : M (option (string * Z)) :=
  try_except
    (if String.eqb operation "GetServiceCapabilities"
     then handled (_handle_get_service_capabilities root)
     else if String.eqb operation "GetConfigurationOptions"
     then ret None
     else if String.eqb operation "GetStatus"
     then handled (_handle_get_status root)
     else if String.eqb operation "ContinuousMove"
     then handled (_handle_continuous_move root)
     else if String.eqb operation "RelativeMove"
     then handled (_handle_relative_move root)
     else if String.eqb operation "AbsoluteMove"
     then handled (_handle_absolute_move root)
     else if String.eqb operation "Stop"
     then handled (_handle_stop root)
     else ret None)
    (fun e =>
       let fault :=
         build_fault_response "SOAP-ENV:Receiver"
           ("Error processing " +:+ operation) (exc_str e) in
       ret (Some (fault, 500%Z))).

End WithRuntime.

End PtzInterceptor.

(** ** proxy_server.py: the capability splicer and the request router *)

Module ProxyServer.
Import Py Etree SoapHandler World OnvifProxy PtzInterceptor.

Definition Spaces : string := clark TT "Spaces".
Definition RelativePanTiltTranslationSpace : string :=
  clark TT "RelativePanTiltTranslationSpace".
Definition URI : string := clark TT "URI".

Definition is_spaces (e : element) : bool := String.eqb (tag e) Spaces.
Definition is_rel_pt (e : element) : bool :=
  String.eqb (tag e) RelativePanTiltTranslationSpace.

(** The loop over the existing spaces: [true] when one of them already
    names the FOV space; reading [uri.text] raises when the [URI]
    element is empty. *)
Fixpoint fov_space_exists (l : list element) : exn + bool :=
  match l with
  | [] => inr false
  | space :: l' =>
      match find URI space with
      | Some uri =>
          match text uri with
          | None =>
              inl (Exn TypeError "argument of type 'NoneType' is not iterable")
          | Some t =>
              if contains "TranslationSpaceFov" t then inr true
              else fov_space_exists l'
          end
      | None => fov_space_exists l'
      end
  end.

Definition range (name : string) : element :=
  Element (clark TT name) [] None
    [ Element (clark TT "Min") [] (Some "-1") [];
      Element (clark TT "Max") [] (Some "1") [] ].

Definition fov_space : element :=
  Element RelativePanTiltTranslationSpace [] None
    [ Element URI [] (Some "http://www.onvif.org/ver10/tptz/PanTiltSpaces/TranslationSpaceFov") [];
      range "XRange";
      range "YRange" ].

(** The [enumerate] loop: index of the last child tagged
    [RelativePanTiltTranslationSpace]. *)
Fixpoint last_rel_pt_idx (l : list element) (idx : nat) (last : option nat)
    : option nat :=
  match l with
  | [] => last
  | child :: l' =>
      last_rel_pt_idx l' (S idx)
        (if is_rel_pt child then Some idx else last)
  end.

(** [list.insert(i, x)]. *)
Definition insert_at {A} (i : nat) (x : A) (l : list A) : list A :=
  take i l ++ x :: drop i l.

Definition insert_fov_space (spaces : element) : element :=
  let 'Element t a x cs := spaces in
  match last_rel_pt_idx cs 0 None with
  | Some i => Element t a x (insert_at (i + 1) fov_space cs)
  | None => Element t a x (cs ++ [fov_space])
  end.

Record Response := { body : string; status : Z; mimetype : string }.

(** The normalisation at the head of [handle_onvif_request]. *)
Definition normalized_service (service : string) : string :=
  let normalized_service :=
    if negb (endswith service "_service")
    then rstrip "s" service +:+ "_service" else service in
  if String.eqb service "ptz_services" || String.eqb service "ptz_service"
  then "ptz_service"
  else if String.eqb service "media_services" || String.eqb service "media_service"
  then "media_service"
  else if String.eqb service "device_services" || String.eqb service "device_service"
  then "device_service"
  else if String.eqb service "event_services" || String.eqb service "event_service"
  then "events_service"
  else normalized_service.

Section WithRuntime.
Context {rt : Runtime}.

Definition add_fov_to_config_options (soap_response : string) : string :=
  match fromstring soap_response with
  | None => soap_response
  | Some root =>
      match find_descendant Spaces root with
      | None => soap_response
      | Some spaces =>
          match find RelativePanTiltTranslationSpace spaces with
          | None => soap_response
          | Some rel_pt_space =>
              match fov_space_exists
                      (findall RelativePanTiltTranslationSpace spaces) with
              | inl _ => soap_response
              | inr true => soap_response
              | inr false =>
                  let root :=
                    default root
                      (update_first is_spaces insert_fov_space root) in
                  tostring root
              end
          end
      end
  end.

(** The globals set by [initialize_components]. *)
Variable cam : Camera.
Variable service_proxy : ONVIFServiceProxy.

Definition soap_mimetype : string := "application/soap+xml; charset=utf-8".

(** [handle_onvif_request(service)] on the decoded request body. *)
Definition handle_onvif_request (service soap_body : string) : M Response :=
  let '(operation, root) := parse_soap_request soap_body in
  let normalized_service := normalized_service service in
  let* intercepted :=
    match operation, root with
    | Some (String _ _ as operation), Some root =>
        if String.eqb normalized_service "ptz_service"
        then intercept cam operation root
        else ret None
    | _, _ => ret None
    end in
  match intercepted with
  | Some (intercepted_response, status_code) =>
      ret {| body := intercepted_response; status := status_code;
             mimetype := soap_mimetype |}
  | None =>
      let* '(response_text, status_code) :=
        forward_request cam service_proxy normalized_service soap_body 10 in
      let response_text :=
        if String.eqb normalized_service "ptz_service"
           && bool_decide (operation = Some "GetConfigurationOptions")
        then add_fov_to_config_options response_text
        else response_text in
      ret {| body := response_text; status := status_code;
             mimetype := soap_mimetype |}
  end.

End WithRuntime.

End ProxyServer.

(** ** A reference runtime

    One concrete [Runtime], used to run the model on examples: [float]
    reads plain decimal literals ([-12], [0.25], [.5], [3.]); the XML codec
    writes an element as the binary digits of its code number, which the
    parser reads back. *)

Module Reference.
Import Py Etree SoapHandler.

Fixpoint digits_value (s : string) (acc : Z) : Z :=
  match s with
  | EmptyString => acc
  | String c s' => digits_value s' (10 * acc + Z.of_nat (nat_of_ascii c - 48))
  end.

Definition unsigned_decimal (s : string) : option Q :=
  let '(int_part, r) := take_digits s in
  match r with
  | EmptyString =>
      match int_part with
      | EmptyString => None
      | _ => Some (inject_Z (digits_value int_part 0))
      end
  | String "." r' =>
      let '(frac, r'') := take_digits r' in
      match r'', (int_part +:+ frac) with
      | EmptyString, String _ _ =>
          Some (Qmake (digits_value (int_part +:+ frac) 0)
                      (Z.to_pos (10 ^ Z.of_nat (String.length frac))))
      | _, _ => None
      end
  | _ => None
  end.

Definition value_error (s : string) : exn :=
  Exn ValueError ("could not convert string to float: '" +:+ s +:+ "'").

Definition float_of_str (s : string) : exn + Q :=
  let r :=
    match s with
    | String "-" s' => Qopp <$> unsigned_decimal s'
    | String "+" s' => unsigned_decimal s'
    | _ => unsigned_decimal s
    end in
  match r with
  | Some q => inr (Qred q)
  | None => inl (value_error s)
  end.

Definition str_of_float (q : Q) : string :=
  pretty (Qnum q) +:+ "/" +:+ pretty (Z.pos (Qden q)).

Definition leaf : Type := string * list (string * string) * option string.

Fixpoint to_tree (e : element) : gen_tree leaf :=
  match e with
  | Element t a x cs => GenNode 0 (GenLeaf (t, a, x) :: List.map to_tree cs)
  end.

Fixpoint of_tree (g : gen_tree leaf) : element :=
  match g with
  | GenNode _ (GenLeaf (t, a, x) :: l) => Element t a x (List.map of_tree l)
  | _ => Element "" [] None []
  end.

Fixpoint bits (p : positive) : string :=
  match p with
  | xH => EmptyString
  | xO p' => String "0" (bits p')
  | xI p' => String "1" (bits p')
  end.

Fixpoint of_bits (s : string) : option positive :=
  match s with
  | EmptyString => Some xH
  | String "0" s' => xO <$> of_bits s'
  | String "1" s' => xI <$> of_bits s'
  | _ => None
  end.

Definition tostring (e : element) : string := bits (encode (to_tree e)).
Definition fromstring (s : string) : option element :=
  match of_bits s with
  | Some p => of_tree <$> (decode p : option (gen_tree leaf))
  | None => None
  end.

#[export] Instance runtime : Runtime :=
  Build_Runtime float_of_str str_of_float pretty fromstring tostring.

End Reference.

(** * Properties *)

Import Py Etree SoapHandler World OnvifProxy PtzWrapper PtzInterceptor ProxyServer.

(** Fixtures used by the examples: the identities of the end-to-end
    scenarios, a tracker at rest, and cameras with a fixed behaviour. *)

Definition scenario_proxy : ONVIFServiceProxy :=
  {| camera_ip := "192.168.1.10"; camera_port := 8000;
     proxy_host := "127.0.0.1"; proxy_port := 8000 |}.

Definition wrapper_at_rest : ONVIFPTZWrapper :=
  {| profile_token := "PROFILE_000";
     _pan_tilt_status := IDLE;
     _zoom_status := IDLE;
     _estimated_position := {| PanTilt_x := 0; PanTilt_y := 0; Zoom_x := 0 |};
     _stop_timers := ∅;
     _native_status_support := false |}.

Definition world_at_rest : world :=
  {| wrapper := wrapper_at_rest; sent := []; threads := []; utcnow := 0 |}.

(** A camera that accepts every PTZ call and answers every POST with
    [200 <ok/>]. *)
Definition obliging_camera : Camera :=
  {| ptz_service := fun _ _ => None;
     ptz_GetStatus := fun _ _ => inl (Exn OtherError "GetStatus not supported");
     requests_post := fun _ _ => HttpResponse "<ok/>" 200 |}.

(** A camera whose every call fails with the given exception. *)
Definition failing_camera (e : exn) : Camera :=
  {| ptz_service := fun _ _ => Some e;
     ptz_GetStatus := fun _ _ => inl e;
     requests_post := fun _ _ => HttpRaise e |}.

(** A SOAP 1.2 envelope around one PTZ operation element. *)
Definition envelope (operation : element) : element :=
  Element (clark SOAP12 "Envelope") [] None
    [ Element (clark SOAP12 "Body") [] None [ operation ] ].

Definition profile_token_elem : element :=
  Element (clark TPTZ "ProfileToken") [] (Some "PROFILE_000") [].

(** [<tptz:AbsoluteMove>] with a [Position/PanTilt] of the given
    attributes. *)
Definition absolute_move_request (x y : string) : element :=
  envelope
    (Element (clark TPTZ "AbsoluteMove") [] None
       [ profile_token_elem;
         Element (clark TPTZ "Position") [] None
           [ Element (clark TT "PanTilt") [("x", x); ("y", y)] None [] ] ]).

(** [<tptz:RelativeMove>] with the given children of [Translation]. *)
Definition relative_move_request (translation : list element) : element :=
  envelope
    (Element (clark TPTZ "RelativeMove") [] None
       [ profile_token_elem;
         Element (clark TPTZ "Translation") [] None translation ]).

(** A space that already names the FOV translation space: its first
    [URI] child has a text containing [TranslationSpaceFov]. *)
Definition names_fov (space : element) : Prop :=
  exists uri t, find URI space = Some uri /\ text uri = Some t /\
                contains "TranslationSpaceFov" t = true.

(** A [GetConfigurationOptionsResponse] whose [Spaces] has the given
    children. *)
Definition configuration_options (spaces : list element) : element :=
  envelope
    (Element (clark TPTZ "GetConfigurationOptionsResponse") [] None
       [ Element (clark TPTZ "PTZConfigurationOptions") [] None
           [ Element Spaces [] None spaces ] ]).

Definition generic_space (name : string) : element :=
  Element (clark TT name) [] None
    [ Element URI [] (Some "http://www.onvif.org/ver10/tptz/PanTiltSpaces/TranslationGenericSpace") [] ].

(** The answer to an intercepted [RelativeMove]. *)
Definition relative_move_response : string * Z :=
  (build_simple_response "RelativeMove" "tptz", 200%Z).

(** Payloads for the address rewriter: literal text interleaved with the
    three tokens that the rewriter substitutes. *)
Inductive token := Host | PortSlash | PortLt.

Inductive segment := Text (s : string) | Tok (t : token).

Definition token_eqb (a b : token) : bool :=
  match a, b with
  | Host, Host | PortSlash, PortSlash | PortLt, PortLt => true
  | _, _ => false
  end.

(** A payload written with a given spelling of the three tokens. *)
Fixpoint render (r : token -> string) (segs : list segment) : string :=
  match segs with
  | [] => EmptyString
  | Text s :: segs' => s +:+ render r segs'
  | Tok t :: segs' => r t +:+ render r segs'
  end.

Definition proxy_form (self : ONVIFServiceProxy) (t : token) : string :=
  match t with
  | Host => proxy_host self
  | PortSlash => port_slash (proxy_port self)
  | PortLt => port_lt (proxy_port self)
  end.

Definition camera_form (self : ONVIFServiceProxy) (t : token) : string :=
  match t with
  | Host => camera_ip self
  | PortSlash => port_slash (camera_port self)
  | PortLt => port_lt (camera_port self)
  end.

Definition respell (r : token -> string) (k : token) (v : string) (t : token) : string :=
  if token_eqb t k then v else r t.

(** [old] starts at no position of [s] in the text [s ++ tail]. *)
Fixpoint clear (old s tail : string) : bool :=
  match s with
  | EmptyString => true
  | String c s' => negb (String.prefix old (s +:+ tail)) && clear old s' tail
  end.

(** One [replace] pass over a payload finds the token [k], spelled [r k],
    exactly where the segments say it is: it starts nowhere inside the
    text that surrounds them. *)
Fixpoint scan_ok (r : token -> string) (k : token) (segs : list segment) : bool :=
  match segs with
  | [] => true
  | Text s :: segs' => clear (r k) s (render r segs') && scan_ok r k segs'
  | Tok t :: segs' =>
      (if token_eqb t k then true else clear (r k) (r t) (render r segs'))
      && scan_ok r k segs'
  end.

Definition nonempty (s : string) : bool :=
  match s with EmptyString => false | _ => true end.

(** The three passes of [rewrite_request] and the three passes of
    [rewrite_response] all find exactly the tokens of the payload. *)
Definition well_tokenised (self : ONVIFServiceProxy) (segs : list segment) : bool :=
  let r0 := proxy_form self in
  let r1 := respell r0 Host (camera_ip self) in
  let r2 := respell r1 PortSlash (port_slash (camera_port self)) in
  let c0 := camera_form self in
  let c1 := respell c0 Host (proxy_host self) in
  let c2 := respell c1 PortSlash (port_slash (proxy_port self)) in
  nonempty (proxy_host self) && nonempty (camera_ip self)
  && scan_ok r0 Host segs && scan_ok r1 PortSlash segs && scan_ok r2 PortLt segs
  && scan_ok c0 Host segs && scan_ok c1 PortSlash segs && scan_ok c2 PortLt segs.

(** The ranges of the estimated position. *)
Definition in_range (p : Position) : Prop :=
  (-1 <= PanTilt_x p <= 1)%Q /\ (-1 <= PanTilt_y p <= 1)%Q /\
  (0 <= Zoom_x p <= 1)%Q.

(** A velocity whose every present component is zero. *)
Definition all_zero (velocity : PTZVector) : Prop :=
  (forall pt, v_PanTilt velocity = Some pt -> (pt_x pt == 0)%Q /\ (pt_y pt == 0)%Q) /\
  (forall z, v_Zoom velocity = Some z -> (z_x z == 0)%Q).

(** What can happen to the tracker: a call of one of its four movement
    methods, or the firing of one of its timers. *)
Inductive tracker_op :=
| OpContinuousMove (request : ContinuousMoveParams)
| OpRelativeMove (request : RelativeMoveParams)
| OpAbsoluteMove (request : AbsoluteMoveParams)
| OpStop (request : StopParams)
| OpTimerFires (key : string).

Definition run_op (cam : Camera) (w : world) (op : tracker_op) : world :=
  match op with
  | OpContinuousMove request => snd (ContinuousMove cam request w)
  | OpRelativeMove request => snd (RelativeMove cam request w)
  | OpAbsoluteMove request => snd (AbsoluteMove cam request w)
  | OpStop request => snd (Stop cam request w)
  | OpTimerFires key => set_wrapper (timer_fires key) w
  end.

Definition run_ops (cam : Camera) (w : world) (ops : list tracker_op) : world :=
  fold_left (run_op cam) ops w.

(** An [AbsoluteMove] whose position lies within the ranges. *)
Definition within_ranges (position : PTZVector) : Prop :=
  (forall pt, v_PanTilt position = Some pt ->
     (-1 <= pt_x pt <= 1)%Q /\ (-1 <= pt_y pt <= 1)%Q) /\
  (forall z, v_Zoom position = Some z -> (0 <= z_x z <= 1)%Q).

Definition valid_op (op : tracker_op) : Prop :=
  match op with
  | OpAbsoluteMove request => within_ranges (am_Position request)
  | _ => True
  end.

(** The operations that [intercept] hands to a handler. *)
Definition tracked_operations : list string :=
  [ "GetServiceCapabilities"; "GetStatus"; "ContinuousMove"; "RelativeMove";
    "AbsoluteMove"; "Stop" ].

(** A handler either answers with status 200, or raises. *)
Definition answers_or_raises (c : M (string * Z)) : Prop :=
  forall w,
    (exists response w', c w = (inr (response, 200%Z), w'))
    \/ (exists e w', c w = (inl e, w')).

(** The fault with which [intercept] answers an exception. *)
Definition receiver_fault (operation : string) (e : exn) : string * Z :=
  (build_fault_response "SOAP-ENV:Receiver" ("Error processing " +:+ operation)
     (exc_str e), 500%Z).

(** The tracker method behind an operation, and the call it makes on the
    camera. *)
Definition tracker_method (cam : Camera) (op : tracker_op) : M unit :=
  match op with
  | OpContinuousMove request => ContinuousMove cam request
  | OpRelativeMove request => RelativeMove cam request
  | OpAbsoluteMove request => AbsoluteMove cam request
  | OpStop request => Stop cam request
  | OpTimerFires key => modify (set_wrapper (timer_fires key))
  end.

Definition camera_call (op : tracker_op) : option ptz_request :=
  match op with
  | OpContinuousMove request => Some (CamContinuousMove request)
  | OpRelativeMove request => Some (CamRelativeMove request)
  | OpAbsoluteMove request => Some (CamAbsoluteMove request)
  | OpStop request => Some (CamStop request)
  | OpTimerFires _ => None
  end.

Definition is_post (o : outbound) : bool :=
  match o with Post _ => true | _ => false end.

(** What a computation adds to the log of outbound calls: at most one
    call, and never a POST. *)
Definition calls_at_most_once {A} (c : M A) : Prop :=
  forall w, exists l,
    sent (snd (c w)) = (sent w ++ l)%list /\
    (length l <= 1)%nat /\ Forall (fun o => is_post o = false) l.

(** Every axis that reports [MOVING] has a live timer that will return it
    to [IDLE]. *)
Definition timers_pending (self : ONVIFPTZWrapper) : Prop :=
  (_pan_tilt_status self = MOVING ->
     exists t, _stop_timers self !! "pantilt" = Some t /\ alive t = true) /\
  (_zoom_status self = MOVING ->
     exists t, _stop_timers self !! "zoom" = Some t /\ alive t = true).





(** [n] copies of the character [c]. *)
Fixpoint run_of (c : ascii) (n : nat) : string :=
  match n with
  | O => EmptyString
  | S n' => String c (run_of c n')
  end.

(** [<tptz:Stop>] and [<tptz:GetNodes>] requests, and a [RelativeMove]
    that carries a zoom translation only. *)
Definition stop_request : element :=
  envelope (Element (clark TPTZ "Stop") [] None [ profile_token_elem ]).

Definition get_nodes_request : element :=
  envelope (Element (clark TPTZ "GetNodes") [] None []).

Definition zoom_relative_move_request (x : string) : element :=
  relative_move_request [ Element (clark TT "Zoom") [("x", x)] None [] ].


(** ** Request router: service names *)

Section Normalisation.

(** Outside the eight special names, the normalised name is the service
    name without its trailing [s] characters, followed by [_service],
    unless the name already ends in [_service]. *)
Lemma normalized_service_generic (service : string) :
  service ∉ [ "ptz_services"; "ptz_service"; "media_services"; "media_service";
              "device_services"; "device_service";
              "event_services"; "event_service" ] ->
  normalized_service service =
    if endswith service "_service" then service
    else rstrip "s" service +:+ "_service".
Proof.
  intros Hnot. unfold normalized_service.
  repeat match goal with
  | |- context [String.eqb service ?k] =>
      destruct (String.eqb_spec service k) as [->|_];
      [ exfalso; apply Hnot; set_solver | ]
  end.
  cbn [orb]. now destruct (endswith service "_service").
Qed.

(** C5, evaluated on the code: [ptz] becomes [ptz_service], and the
    singular [event_service] becomes [events_service]; but [event] and
    [events] become [event_service], a name the forwarder's catalogue
    does not know, so the request goes to the fallback URL. *)
Theorem normalized_service_event_names :
  normalized_service "ptz" = "ptz_service" /\
  normalized_service "event_service" = "events_service" /\
  normalized_service "events" = "event_service" /\
  normalized_service "event" = "event_service" /\
  service_urls scenario_proxy !! "event_service" = None /\
  req_url (build_request scenario_proxy (normalized_service "events") "" 10)
    = "http://192.168.1.10:8000/onvif/event_service".
Proof. repeat split; vm_compute; reflexivity. Qed.

End Normalisation.

(** ** Camera forwarder: failure classification *)

Section Forwarder.

Lemma fault_bodies :
  _timeout_fault = fault_envelope "SOAP-ENV:Receiver" "Request timeout" /\
  _connection_fault = fault_envelope "SOAP-ENV:Receiver" "Connection error to camera" /\
  forall message,
    _generic_fault message = fault_envelope "SOAP-ENV:Receiver" message.
Proof. repeat split. Qed.

(** C6: when the POST to the camera raises, the forwarder answers 500
    with a SOAP 1.2 fault whose [Code/Value] is [SOAP-ENV:Receiver] and
    whose [Reason/Text] is [Request timeout] for a timeout,
    [Connection error to camera] for a connection failure, and the
    exception's message otherwise. *)
Theorem forward_request_failure (cam : Camera) (self : ONVIFServiceProxy)
    (service soap_body : string) (timeout : Z) (w : world) (e : exn) :
  requests_post cam (sent w) (build_request self service soap_body timeout)
    = HttpRaise e ->
  let result := fst (forward_request cam self service soap_body timeout w) in
  (is_Timeout e = true ->
     result = inr (fault_envelope "SOAP-ENV:Receiver" "Request timeout", 500%Z)) /\
  (is_Timeout e = false -> is_ConnectionError e = true ->
     result = inr (fault_envelope "SOAP-ENV:Receiver" "Connection error to camera", 500%Z)) /\
  (is_Timeout e = false -> is_ConnectionError e = false ->
     result = inr (fault_envelope "SOAP-ENV:Receiver" (exc_str e), 500%Z)).
Proof.
  intros Hpost. cbv zeta.
  unfold forward_request, bind, post. cbn [fst]. rewrite Hpost.
  repeat split; intros; repeat match goal with H : _ = _ |- _ => rewrite H end;
    reflexivity.
Qed.

Lemma forward_request_failure_witness :
  let e := Exn ReadTimeout "read timed out" in
  requests_post (failing_camera e) (sent world_at_rest)
    (build_request scenario_proxy "ptz_service" "<Envelope/>" 10) = HttpRaise e /\
  let result :=
    fst (forward_request (failing_camera e) scenario_proxy "ptz_service"
           "<Envelope/>" 10 world_at_rest) in
  (is_Timeout e = true ->
     result = inr (fault_envelope "SOAP-ENV:Receiver" "Request timeout", 500%Z)) /\
  (is_Timeout e = false -> is_ConnectionError e = true ->
     result = inr (fault_envelope "SOAP-ENV:Receiver" "Connection error to camera", 500%Z)) /\
  (is_Timeout e = false -> is_ConnectionError e = false ->
     result = inr (fault_envelope "SOAP-ENV:Receiver" (exc_str e), 500%Z)).
Proof.
  split; [reflexivity |].
  apply (forward_request_failure
           (failing_camera (Exn ReadTimeout "read timed out")) scenario_proxy
           "ptz_service" "<Envelope/>" 10 world_at_rest
           (Exn ReadTimeout "read timed out")).
  reflexivity.
Defined.

End Forwarder.

(** ** Request router: malformed envelopes *)

Section MalformedSoap.
Context {rt : Runtime}.

Lemma parse_soap_request_malformed (soap_body : string) :
  fromstring soap_body = None ->
  parse_soap_request soap_body = (None, None).
Proof. intros Hbad. unfold parse_soap_request. now rewrite Hbad. Qed.

(** C1, as the code has it: a body the XML parser rejects is not given
    to the interceptor; it is forwarded to the camera under the
    normalised service name, and the forwarder's answer (the camera's
    rewritten response and status, or the forwarder's own 500 fault) is
    returned.  The tracker and the started threads are not touched. *)
Theorem malformed_soap_is_forwarded (cam : Camera)
    (service_proxy : ONVIFServiceProxy) (service soap_body : string)
    (w : world) :
  fromstring soap_body = None ->
  let request :=
    build_request service_proxy (normalized_service service) soap_body 10 in
  let '(result, w') := handle_onvif_request cam service_proxy service soap_body w in
  w' = record_sent (Post request) w /\
  match requests_post cam (sent w) request with
  | HttpResponse text status_code =>
      result = inr {| body := rewrite_response service_proxy text;
                      status := status_code;
                      mimetype := soap_mimetype |}
  | HttpRaise e =>
      exists reason,
        result = inr {| body := fault_envelope "SOAP-ENV:Receiver" reason;
                        status := 500;
                        mimetype := soap_mimetype |} /\
        reason ∈ ["Request timeout"; "Connection error to camera"; exc_str e]
  end.
Proof.
  intros Hbad. cbv zeta.
  unfold handle_onvif_request.
  rewrite (parse_soap_request_malformed _ Hbad).
  unfold bind at 1. unfold ret at 1.
  unfold bind at 1. unfold forward_request, bind, post.
  match goal with
  | |- context [@bool_decide ?P ?d] => change (@bool_decide P d) with false
  end.
  destruct (requests_post cam (sent w) _) as [text code|e].
  - cbn [ret]. rewrite andb_false_r. split; reflexivity.
  - destruct fault_bodies as (Ht & Hc & Hg).
    destruct (is_Timeout e); [|destruct (is_ConnectionError e)]; cbn [ret];
      rewrite andb_false_r; (split; [reflexivity|]).
    + exists "Request timeout". rewrite Ht. split; [reflexivity|].
      apply list_elem_of_In; left; reflexivity.
    + exists "Connection error to camera". rewrite Hc. split; [reflexivity|].
      apply list_elem_of_In; right; left; reflexivity.
    + exists (exc_str e). rewrite Hg. split; [reflexivity|].
      apply list_elem_of_In; right; right; left; reflexivity.
Qed.

End MalformedSoap.

(** C1, as stated, fails: on the malformed body [<bad] the obliging camera's
    answer comes back with status 200, and one POST has gone out. *)
Lemma malformed_soap_gets_no_fault :
  Reference.fromstring "<bad" = None /\
  let '(result, w') :=
    handle_onvif_request (rt := Reference.runtime) obliging_camera scenario_proxy "device_service" "<bad"
      world_at_rest in
  ~ (exists response,
       result = inr response /\
       status response = 500%Z /\
       body response = fault_envelope "SOAP-ENV:Receiver" "Malformed SOAP" /\
       sent w' = sent world_at_rest).
Proof.
  split; [vm_compute; reflexivity|].
  vm_compute. intros (response & Hr & Hs & _).
  injection Hr as <-. discriminate Hs.
Qed.

Lemma malformed_soap_is_forwarded_witness :
  Reference.fromstring "<bad" = None /\
  let request :=
    build_request scenario_proxy (normalized_service "device_service") "<bad" 10 in
  let '(result, w') :=
    handle_onvif_request (rt := Reference.runtime) obliging_camera scenario_proxy
      "device_service" "<bad" world_at_rest in
  w' = record_sent (Post request) world_at_rest /\
  match requests_post obliging_camera (sent world_at_rest) request with
  | HttpResponse text status_code =>
      result = inr {| body := rewrite_response scenario_proxy text;
                      status := status_code;
                      mimetype := soap_mimetype |}
  | HttpRaise e =>
      exists reason,
        result = inr {| body := fault_envelope "SOAP-ENV:Receiver" reason;
                        status := 500;
                        mimetype := soap_mimetype |} /\
        reason ∈ ["Request timeout"; "Connection error to camera"; exc_str e]
  end.
Proof.
  split; [vm_compute; reflexivity|].
  apply (malformed_soap_is_forwarded (rt := Reference.runtime) obliging_camera
           scenario_proxy "device_service" "<bad" world_at_rest).
  vm_compute; reflexivity.
Defined.

(** ** Status tracker *)

Ltac compare_facts :=
  repeat match goal with
  | H : (_ ?= _)%Q = Eq |- _ => apply Qeq_alt in H
  | H : (_ ?= _)%Q = Lt |- _ => apply Qlt_alt in H
  | H : (_ ?= _)%Q = Gt |- _ => apply Qgt_alt in H
  end.

Section Tracker.


Lemma lt_false (a b : Q) : lt a b = false <-> (b <= a)%Q.
Proof.
  unfold lt. destruct (a ?= b)%Q eqn:Hc; compare_facts;
    split; intros; try congruence; try lra.
Qed.


Lemma max_min_bounds (lo hi v : Q) :
  (lo <= hi)%Q -> (lo <= max lo (min hi v) <= hi)%Q.
Proof.
  intros Hle. unfold max, min.
  destruct (v ?= hi)%Q eqn:Hv;
    match goal with |- context [(?m ?= lo)%Q] => destruct (m ?= lo)%Q eqn:Hc end;
    compare_facts; lra.
Qed.

(** Whatever the position was and whatever the update is,
    [_update_estimated_position] leaves the position in range. *)
Lemma update_estimated_position_in_range pan_tilt zoom duration velocity self :
  in_range (_estimated_position
              (_update_estimated_position pan_tilt zoom duration velocity self)).
Proof.
  unfold _update_estimated_position.
  destruct (match pan_tilt with Some _ => _ | None => _ end) as [x y].
  cbn [with_position _estimated_position].
  repeat split; cbn [PanTilt_x PanTilt_y Zoom_x];
    apply max_min_bounds; easy.
Qed.

(** *** Projections of an updated world *)

Lemma wrapper_set_wrapper f w : wrapper (set_wrapper f w) = f (wrapper w).
Proof. reflexivity. Qed.
Lemma wrapper_record_sent o w : wrapper (record_sent o w) = wrapper w.
Proof. reflexivity. Qed.

(** *** What one status update does to statuses, timers and position *)

Lemma set_pan_tilt_status_facts status duration self :
  let self' := _set_pan_tilt_status status duration self in
  _pan_tilt_status self' = status /\
  _zoom_status self' = _zoom_status self /\
  _estimated_position self' = _estimated_position self /\
  _stop_timers self' !! "zoom" = _stop_timers self !! "zoom" /\
  _stop_timers self' !! "pantilt" =
    if is_moving status && lt 0 duration
    then Some {| interval := duration; alive := true |}
    else cancel <$> _stop_timers self !! "pantilt".
Proof.
  unfold _set_pan_tilt_status. cbv zeta.
  destruct (is_moving status && lt 0 duration);
    cbn [with_timers with_pan_tilt_status _pan_tilt_status _zoom_status
         _estimated_position _stop_timers];
    repeat split.
  - rewrite lookup_insert_ne by discriminate.
    now rewrite lookup_alter_ne by discriminate.
  - now rewrite lookup_insert_eq.
  - now rewrite lookup_alter_ne by discriminate.
  - now rewrite lookup_alter_eq.
Qed.

Lemma set_zoom_status_facts status duration self :
  let self' := _set_zoom_status status duration self in
  _zoom_status self' = status /\
  _pan_tilt_status self' = _pan_tilt_status self /\
  _estimated_position self' = _estimated_position self /\
  _stop_timers self' !! "pantilt" = _stop_timers self !! "pantilt" /\
  _stop_timers self' !! "zoom" =
    if is_moving status && lt 0 duration
    then Some {| interval := duration; alive := true |}
    else cancel <$> _stop_timers self !! "zoom".
Proof.
  unfold _set_zoom_status. cbv zeta.
  destruct (is_moving status && lt 0 duration);
    cbn [with_timers with_zoom_status _pan_tilt_status _zoom_status
         _estimated_position _stop_timers];
    repeat split.
  - rewrite lookup_insert_ne by discriminate.
    now rewrite lookup_alter_ne by discriminate.
  - now rewrite lookup_insert_eq.
  - now rewrite lookup_alter_ne by discriminate.
  - now rewrite lookup_alter_eq.
Qed.

Lemma update_estimated_position_frame pan_tilt zoom duration velocity self :
  let self' := _update_estimated_position pan_tilt zoom duration velocity self in
  _pan_tilt_status self' = _pan_tilt_status self /\
  _zoom_status self' = _zoom_status self /\
  _stop_timers self' = _stop_timers self.
Proof.
  unfold _update_estimated_position. cbv zeta.
  destruct (match pan_tilt with Some _ => _ | None => _ end) as [x y].
  repeat split.
Qed.

Lemma ne_false (a b : Q) : ne a b = false <-> (a == b)%Q.
Proof.
  unfold ne. rewrite negb_false_iff. apply Qeq_bool_iff.
Qed.

(** The zero-velocity test of [ContinuousMove] holds exactly when every
    component present in the request is zero. *)
Lemma is_stop_spec velocity : is_stop velocity = true <-> all_zero velocity.
Proof.
  unfold is_stop, all_zero. cbv zeta.
  destruct (v_PanTilt velocity) as [pt|], (v_Zoom velocity) as [z|].
  - destruct (ne (pt_x pt) 0) eqn:Hx; [|destruct (ne (pt_y pt) 0) eqn:Hy];
      [| |destruct (ne (z_x z) 0) eqn:Hz]; cbn [orb];
      rewrite ?ne_false in *.
    + split; [destruct (ne (z_x z) 0); discriminate|].
      intros [Hpt _]. destruct (Hpt pt eq_refl) as [Hx0 _].
      apply ne_false in Hx0. congruence.
    + split; [destruct (ne (z_x z) 0); discriminate|].
      intros [Hpt _]. destruct (Hpt pt eq_refl) as [_ Hy0].
      apply ne_false in Hy0. congruence.
    + split; [discriminate|].
      intros [_ Hzz]. specialize (Hzz z eq_refl).
      apply ne_false in Hzz. congruence.
    + split; [|reflexivity]. intros _.
      split; [intros ? [= <-]; now split | intros ? [= <-]; assumption].
  - destruct (ne (pt_x pt) 0) eqn:Hx; [|destruct (ne (pt_y pt) 0) eqn:Hy];
      cbn [orb]; rewrite ?ne_false in *.
    + split; [discriminate|].
      intros [Hpt _]. destruct (Hpt pt eq_refl) as [Hx0 _].
      apply ne_false in Hx0. congruence.
    + split; [discriminate|].
      intros [Hpt _]. destruct (Hpt pt eq_refl) as [_ Hy0].
      apply ne_false in Hy0. congruence.
    + split; [|reflexivity]. intros _.
      split; [intros ? [= <-]; now split | discriminate].
  - destruct (ne (z_x z) 0) eqn:Hz; rewrite ?ne_false in *.
    + split; [discriminate|].
      intros [_ Hzz]. specialize (Hzz z eq_refl).
      apply ne_false in Hzz. congruence.
    + split; [|reflexivity]. intros _.
      split; [discriminate | intros ? [= <-]; assumption].
  - split; [|reflexivity]. intros _. split; discriminate.
Qed.

(** The tracker update that follows an accepted [ContinuousMove]. *)
Lemma ContinuousMove_accepted cam request w :
  ptz_service cam (sent w) (CamContinuousMove request) = None ->
  ContinuousMove cam request w =
    (inr tt,
     set_wrapper
       (fun self =>
          let velocity := cm_Velocity request in
          if is_stop velocity
          then _set_zoom_status IDLE 0 (_set_pan_tilt_status IDLE 0 self)
          else
            let duration := move_duration (cm_Timeout request) in
            let self :=
              if bool_decide (is_Some (v_PanTilt velocity))
              then _set_pan_tilt_status MOVING duration self else self in
            let self :=
              if bool_decide (is_Some (v_Zoom velocity))
              then _set_zoom_status MOVING duration self else self in
            _update_estimated_position None None duration (Some velocity) self)
       (record_sent (Zeep (CamContinuousMove request)) w)).
Proof.
  intros Hok. unfold ContinuousMove, bind, call_ptz. rewrite Hok.
  cbv zeta. unfold set_wrapper at 1. cbn [wrapper sent threads utcnow record_sent].
  destruct (is_stop (cm_Velocity request)); [reflexivity|].
  unfold when, modify, ret, bind.
  destruct (bool_decide (is_Some (v_PanTilt (cm_Velocity request))));
    destruct (bool_decide (is_Some (v_Zoom (cm_Velocity request))));
    reflexivity.
Qed.

Lemma ContinuousMove_refused cam request w e :
  ptz_service cam (sent w) (CamContinuousMove request) = Some e ->
  ContinuousMove cam request w =
    (inl e, record_sent (Zeep (CamContinuousMove request)) w).
Proof.
  intros Hno. unfold ContinuousMove, bind, call_ptz. now rewrite Hno.
Qed.

Lemma move_duration_positive timeout :
  (forall t, timeout = Some t -> (0 <= t)%Q) ->
  lt 0 (move_duration timeout) = true.
Proof.
  intros Hpos. unfold move_duration, lt.
  destruct timeout as [t|]; [|reflexivity].
  specialize (Hpos t eq_refl). unfold ne.
  destruct (Qeq_bool t 0) eqn:Hz; cbn [negb]; [reflexivity|].
  apply Qeq_bool_neq in Hz.
  destruct (0 ?= t)%Q eqn:Hc; [| reflexivity |]; compare_facts.
  - exfalso. apply Hz. now symmetry.
  - lra.
Qed.

End Tracker.

(** ** ContinuousMove tracking *)

Section ContinuousMoveTracking.

(** C3, as the code has it.  After an accepted [ContinuousMove]:
    when every present velocity component is zero, both axes are [IDLE]
    whatever they were, their timers are cancelled and the position is
    kept; otherwise, with the duration being the request timeout when it
    is present and not zero, and 5 seconds when it is absent or zero,
    every axis present in the request (its own velocity zero or not) is
    [MOVING] with a timer of that duration, an absent axis keeps status
    and timer, and the position advances by velocity x duration x 0.1,
    clamped. *)
Theorem continuous_move_tracking (cam : Camera)
    (request : ContinuousMoveParams) (w : world) :
  ptz_service cam (sent w) (CamContinuousMove request) = None ->
  (forall t, cm_Timeout request = Some t -> (0 <= t)%Q) ->
  let velocity := cm_Velocity request in
  let duration := move_duration (cm_Timeout request) in
  let self := wrapper w in
  let self' := wrapper (snd (ContinuousMove cam request w)) in
  let timer := {| interval := duration; alive := true |} in
  (all_zero velocity ->
     _pan_tilt_status self' = IDLE /\ _zoom_status self' = IDLE /\
     _stop_timers self' !! "pantilt" = cancel <$> _stop_timers self !! "pantilt" /\
     _stop_timers self' !! "zoom" = cancel <$> _stop_timers self !! "zoom" /\
     _estimated_position self' = _estimated_position self) /\
  (~ all_zero velocity ->
     (forall pt, v_PanTilt velocity = Some pt ->
        _pan_tilt_status self' = MOVING /\
        _stop_timers self' !! "pantilt" = Some timer /\
        PanTilt_x (_estimated_position self') =
          max (-1) (min 1 (PanTilt_x (_estimated_position self)
                           + pt_x pt * duration * (1 # 10))%Q) /\
        PanTilt_y (_estimated_position self') =
          max (-1) (min 1 (PanTilt_y (_estimated_position self)
                           + pt_y pt * duration * (1 # 10))%Q)) /\
     (v_PanTilt velocity = None ->
        _pan_tilt_status self' = _pan_tilt_status self /\
        _stop_timers self' !! "pantilt" = _stop_timers self !! "pantilt") /\
     (forall z, v_Zoom velocity = Some z ->
        _zoom_status self' = MOVING /\
        _stop_timers self' !! "zoom" = Some timer /\
        Zoom_x (_estimated_position self') =
          max 0 (min 1 (Zoom_x (_estimated_position self)
                        + z_x z * duration * (1 # 10))%Q)) /\
     (v_Zoom velocity = None ->
        _zoom_status self' = _zoom_status self /\
        _stop_timers self' !! "zoom" = _stop_timers self !! "zoom")).
Proof.
  intros Hok Htimeout. cbv zeta.
  rewrite (ContinuousMove_accepted _ _ _ Hok). cbn [snd].
  rewrite wrapper_set_wrapper, wrapper_record_sent.
  pose proof (move_duration_positive _ Htimeout) as Hpos.
  set (duration := move_duration (cm_Timeout request)) in *.
  set (self := wrapper w).
  split; intros Hstop; rewrite <- is_stop_spec in Hstop;
    [|apply not_true_is_false in Hstop]; rewrite Hstop.
  - destruct (set_pan_tilt_status_facts IDLE 0 self) as (Hp1 & Hp2 & Hp3 & Hp4 & Hp5).
    destruct (set_zoom_status_facts IDLE 0 (_set_pan_tilt_status IDLE 0 self))
      as (Hz1 & Hz2 & Hz3 & Hz4 & Hz5).
    cbv zeta in *. cbn [is_moving andb] in *.
    repeat split; congruence.
  - cbv zeta.
    revert Hstop. destruct (cm_Velocity request) as [pan_tilt zoom].
    intros Hstop. cbn [v_PanTilt v_Zoom] in *.
    assert (Hmoving : is_moving MOVING && lt 0 duration = true)
      by now rewrite Hpos.
    destruct pan_tilt as [pt|], zoom as [z|];
      repeat match goal with
      | |- context [bool_decide (is_Some (Some ?a))] =>
          rewrite (bool_decide_eq_true_2 (is_Some (Some a))) by eauto
      | |- context [bool_decide (is_Some None)] =>
          rewrite (bool_decide_eq_false_2 (is_Some None))
            by (intros [? ?]; discriminate)
      end;
      match goal with
      | |- context [_update_estimated_position ?a ?b ?c ?d ?s] =>
          destruct (update_estimated_position_frame a b c d s)
            as (Hu1 & Hu2 & Hu3);
          cbv zeta in Hu1, Hu2, Hu3; rewrite Hu1, Hu2, Hu3;
          unfold _update_estimated_position;
          cbn [mbind option_bind v_PanTilt v_Zoom];
          try rewrite Hpos;
          cbn [_estimated_position with_position PanTilt_x PanTilt_y Zoom_x]
      end;
      repeat match goal with
      | |- context [_set_zoom_status ?a ?b ?s] =>
          lazymatch goal with
          | _ : _zoom_status (_set_zoom_status a b s) = _ |- _ => fail
          | _ => destruct (set_zoom_status_facts a b s) as (? & ? & ? & ? & ?)
          end
      | |- context [_set_pan_tilt_status ?a ?b ?s] =>
          lazymatch goal with
          | _ : _pan_tilt_status (_set_pan_tilt_status a b s) = _ |- _ => fail
          | _ => destruct (set_pan_tilt_status_facts a b s) as (? & ? & ? & ? & ?)
          end
      end;
      cbv zeta in *;
      repeat match goal with
      | H : context [is_moving MOVING && lt 0 duration] |- _ =>
          rewrite Hmoving in H
      end;
      repeat split; intros; try discriminate;
      repeat match goal with
      | H : Some _ = Some _ |- _ => injection H as <-
      end;
      try congruence.
Qed.

End ContinuousMoveTracking.

Lemma continuous_move_tracking_witness :
  let request :=
    {| cm_ProfileToken := Some "PROFILE_000";
       cm_Velocity :=
         {| v_PanTilt := Some {| pt_x := 1 # 2; pt_y := 0; pt_space := None |};
            v_Zoom := None |};
       cm_Timeout := Some (2 : Q) |} in
  ptz_service obliging_camera (sent world_at_rest) (CamContinuousMove request) = None /\
  (forall t, cm_Timeout request = Some t -> (0 <= t)%Q) /\
  ~ all_zero (cm_Velocity request) /\
  let self' :=
    wrapper (snd (ContinuousMove obliging_camera request world_at_rest)) in
  _pan_tilt_status self' = MOVING /\
  _stop_timers self' !! "pantilt" = Some {| interval := 2; alive := true |} /\
  _zoom_status self' = IDLE.
Proof.
  intros request.
  assert (Htimeout : forall t, cm_Timeout request = Some t -> (0 <= t)%Q).
  { intros t Ht. injection Ht as <-. discriminate. }
  assert (Hmoving : ~ all_zero (cm_Velocity request)).
  { intros [Hzero _]. destruct (Hzero _ eq_refl) as [Hx _]. discriminate Hx. }
  split; [reflexivity|]. split; [exact Htimeout|]. split; [exact Hmoving|].
  destruct (continuous_move_tracking obliging_camera request world_at_rest
              eq_refl Htimeout) as [_ Hmove].
  destruct (Hmove Hmoving) as (Hpt & _ & _ & Hzoom).
  destruct (Hpt _ eq_refl) as (Hs & Ht & _).
  destruct (Hzoom eq_refl) as (Hz & _).
  split; [exact Hs | split; [exact Ht | exact Hz]].
Defined.

(** C3, as stated, fails: the [ContinuousMove] that the RelativeMove
    synthesis sends first names a [Zoom] axis with velocity 0 next to a
    non-zero [PanTilt]; the zoom axis, idle before, is [MOVING] after, with
    its own 5 second timer. *)
Lemma continuous_move_marks_zero_axis_moving :
  let request :=
    {| cm_ProfileToken := Some "PROFILE_000";
       cm_Velocity :=
         {| v_PanTilt := Some {| pt_x := 1 # 2; pt_y := 0; pt_space := None |};
            v_Zoom := Some {| z_x := 0; z_space := None |} |};
       cm_Timeout := None |} in
  let self' :=
    wrapper (snd (ContinuousMove obliging_camera request world_at_rest)) in
  ptz_service obliging_camera (sent world_at_rest) (CamContinuousMove request) = None /\
  (forall z, v_Zoom (cm_Velocity request) = Some z -> z_x z == 0)%Q /\
  _zoom_status wrapper_at_rest = IDLE /\
  _zoom_status self' = MOVING /\
  _stop_timers self' !! "zoom" = Some {| interval := 5; alive := true |} /\
  ~ (_zoom_status self' = _zoom_status wrapper_at_rest).
Proof.
  cbv zeta. split; [reflexivity|].
  split; [intros z [= <-]; reflexivity|].
  repeat split; try (vm_compute; reflexivity).
  vm_compute. discriminate.
Qed.

(** ** Estimated position and AbsoluteMove *)

Section AbsoluteMovePosition.

Lemma set_pan_tilt_status_position status duration self :
  _estimated_position (_set_pan_tilt_status status duration self)
    = _estimated_position self.
Proof. apply set_pan_tilt_status_facts. Qed.

Lemma set_zoom_status_position status duration self :
  _estimated_position (_set_zoom_status status duration self)
    = _estimated_position self.
Proof. apply set_zoom_status_facts. Qed.

Lemma timer_fires_position key self :
  _estimated_position (timer_fires key self) = _estimated_position self.
Proof.
  unfold timer_fires. destruct (_stop_timers self !! key) as [t|]; [|reflexivity].
  destruct (alive t); [|reflexivity].
  destruct (String.eqb key "pantilt"); [reflexivity|].
  destruct (String.eqb key "zoom"); reflexivity.
Qed.

(** Each operation other than an [AbsoluteMove] to a position outside the
    ranges keeps the estimated position within the ranges: every path
    through [_update_estimated_position] clamps. *)
Lemma run_op_in_range cam w op :
  valid_op op -> in_range (_estimated_position (wrapper w)) -> in_range (_estimated_position (wrapper (run_op cam w op))).
Proof.
  intros Hvalid Hin. destruct op as [r|r|r|r|key]; cbn [run_op].
  - destruct (ptz_service cam (sent w) (CamContinuousMove r)) as [e|] eqn:Hcam.
    + now rewrite (ContinuousMove_refused _ _ _ _ Hcam).
    + rewrite (ContinuousMove_accepted _ _ _ Hcam). cbn [snd].
      rewrite wrapper_set_wrapper, wrapper_record_sent. cbv zeta.
      destruct (is_stop (cm_Velocity r));
        [exact Hin | apply update_estimated_position_in_range].
  - unfold RelativeMove, bind, call_ptz.
    destruct (ptz_service cam (sent w) (CamRelativeMove r)); [exact Hin|].
    destruct (v_PanTilt (rm_Translation r)), (v_Zoom (rm_Translation r));
      unfold modify, ret; cbn [snd];
      rewrite ?wrapper_set_wrapper, ?wrapper_record_sent;
      try apply update_estimated_position_in_range; exact Hin.
  - unfold AbsoluteMove, bind, call_ptz.
    destruct (ptz_service cam (sent w) (CamAbsoluteMove r)); [exact Hin|].
    destruct Hvalid as [Hpt Hz]. destruct Hin as (Hx & Hy & Hzoom).
    destruct (v_PanTilt (am_Position r)) as [pt|], (v_Zoom (am_Position r)) as [z|];
      unfold modify, ret; cbn [snd];
      rewrite ?wrapper_set_wrapper, ?wrapper_record_sent;
      cbn [with_position _estimated_position PanTilt_x PanTilt_y Zoom_x];
      rewrite ?set_pan_tilt_status_position, ?set_zoom_status_position;
      cbn [with_position _estimated_position PanTilt_x PanTilt_y Zoom_x];
      rewrite ?set_pan_tilt_status_position;
      unfold in_range; cbn [PanTilt_x PanTilt_y Zoom_x];
      repeat split;
      try (apply (Hpt _ eq_refl)); try (apply (Hz _ eq_refl));
      try apply Hx; try apply Hy; try apply Hzoom.
  - unfold Stop, bind, call_ptz.
    destruct (ptz_service cam (sent w) (CamStop r)); [exact Hin|].
    destruct (st_PanTilt r), (st_Zoom r);
      unfold when, modify, ret; cbn [snd];
      rewrite ?wrapper_set_wrapper, ?wrapper_record_sent,
        ?set_zoom_status_position, ?set_pan_tilt_status_position; exact Hin.
  - rewrite wrapper_set_wrapper, timer_fires_position. exact Hin.
Qed.

(** X13: so does every sequence of them, whatever the camera answers.
    Along every sequence of calls of the four movement methods and of
    timer firings in which no [AbsoluteMove] asks for a position outside
    the ranges, the estimated position stays within [-1, 1] for pan and
    tilt and within [0, 1] for zoom. *)
Lemma run_ops_in_range cam ops :
  forall w, Forall valid_op ops -> in_range (_estimated_position (wrapper w)) ->
            in_range (_estimated_position (wrapper (run_ops cam w ops))).
Proof.
  induction ops as [|op ops IH]; intros w Hvalid Hin; [exact Hin|].
  inversion Hvalid as [|? ? Hop Hops]; subst. cbn [run_ops fold_left].
  apply IH; [exact Hops|]. now apply run_op_in_range.
Qed.

(** What [AbsoluteMove] leaves in the tracker when the camera accepts
    the call: the requested components as they are. *)
Lemma AbsoluteMove_accepted cam request w :
  ptz_service cam (sent w) (CamAbsoluteMove request) = None ->
  let self' := wrapper (snd (AbsoluteMove cam request w)) in
  let position := am_Position request in
  (forall pt, v_PanTilt position = Some pt ->
     PanTilt_x (_estimated_position self') = pt_x pt /\
     PanTilt_y (_estimated_position self') = pt_y pt) /\
  (forall z, v_Zoom position = Some z ->
     Zoom_x (_estimated_position self') = z_x z).
Proof.
  intros Hok. cbv zeta.
  unfold AbsoluteMove, bind, call_ptz. rewrite Hok.
  destruct (am_Position request) as [pan_tilt zoom]. cbn [v_PanTilt v_Zoom].
  destruct pan_tilt as [pt|], zoom as [z|]; split; intros ? [= <-];
    repeat split.
Qed.

(** C2, evaluated on the code: an [AbsoluteMove] to [x = 2.0] is accepted
    by the camera, answered with 200, and the status then reported has
    the pan position 2, outside [-1, 1]; the clamped value would be 1.
    The first position update that follows brings it back in range. *)
Theorem absolute_move_stores_unclamped_position :
  let '(result, w') :=
    _handle_absolute_move (rt := Reference.runtime) obliging_camera
      (absolute_move_request "2.0" "0") world_at_rest in
  let snapshot := simulated_status (wrapper w') (utcnow w') in
  (exists response, result = inr (response, 200%Z)) /\
  Position_PanTilt_x snapshot = 2%Q /\
  ~ (Position_PanTilt_x snapshot <= 1)%Q /\
  max (-1) (min 1 2) = 1%Q /\
  ~ in_range (_estimated_position (wrapper w')) /\
  in_range (_estimated_position
              (_update_estimated_position None None 0 None (wrapper w'))).
Proof.
  destruct (_handle_absolute_move _ _ _) as [result w'] eqn:Hrun.
  vm_compute in Hrun. injection Hrun as <- <-.
  cbn [simulated_status wrapper _estimated_position Position_PanTilt_x PanTilt_x].
  split; [eexists; reflexivity|].
  split; [reflexivity|].
  split; [intros Hle; now apply Hle|].
  split; [reflexivity|].
  split.
  - intros [[_ Hx] _]. now apply Hx.
  - apply update_estimated_position_in_range.
Qed.

End AbsoluteMovePosition.

(** ** RelativeMove *)

Section RelativeMoveHandling.
Context {rt : Runtime}.




End RelativeMoveHandling.



(** ** Capability splicer *)

Section ElementTrees.

(** Induction on elements, with the hypothesis for every child. *)
Lemma element_rect' (P : element -> Prop) :
  (forall t a x cs, Forall P cs -> P (Element t a x cs)) ->
  forall e, P e.
Proof.
  intros Hstep. fix IH 1. intros [t a x cs]. apply Hstep.
  induction cs as [|c cs IHcs]; constructor; [apply IH | exact IHcs].
Qed.

Lemma find_app {A} (p : A -> bool) (l1 l2 : list A) :
  List.find p (l1 ++ l2) =
    match List.find p l1 with
    | Some a => Some a
    | None => List.find p l2
    end.
Proof.
  induction l1 as [|a l1 IH]; [reflexivity|].
  cbn. destruct (p a); [reflexivity | exact IH].
Qed.

Variable p : element -> bool.
Variable f : element -> element.
Hypothesis p_tag : forall e e', tag e = tag e' -> p e = p e'.
Hypothesis f_tag : forall e, tag (f e) = tag e.

Lemma update_first_tag e e' : update_first p f e = Some e' -> tag e' = tag e.
Proof.
  destruct e as [t a x cs]. cbn [update_first].
  destruct (update_in p f (update_first p f) cs);
    [intros [= <-]; reflexivity | discriminate].
Qed.

(** [update_first] rewrites the element that the search for the first
    proper descendant returns, and that element's image is what the same
    search returns in the new tree. *)
Lemma update_first_find e :
  match List.find p (descendants e) with
  | Some s =>
      exists e', update_first p f e = Some e' /\
                 List.find p (descendants e') = Some (f s)
  | None => update_first p f e = None
  end.
Proof.
  induction e as [t a x cs IH] using element_rect'.
  unfold descendants. cbn [children update_first].
  set (go := update_in p f (update_first p f)).
  assert (Hgo :
    match List.find p (List.flat_map iter cs) with
    | Some s => exists cs', go cs = Some cs' /\
                            List.find p (List.flat_map iter cs') = Some (f s)
    | None => go cs = None
    end).
  { induction IH as [|c cs Hc _ IHcs]; [reflexivity|].
    cbn [List.flat_map]. rewrite find_app.
    destruct c as [ct ca cx ccs] eqn:Ec. rewrite <- Ec in *.
    assert (Hiter : iter c = c :: descendants c) by (rewrite Ec; reflexivity).
    rewrite Hiter. cbn [List.find].
    unfold go. cbn [update_in]. fold go. destruct (p c) eqn:Hpc.
    - eexists. split; [reflexivity|].
      cbn [List.flat_map]. rewrite find_app.
      destruct (f c) as [ft fa fx fcs] eqn:Efc. rewrite <- Efc.
      replace (iter (f c)) with (f c :: descendants (f c))
        by (rewrite Efc; reflexivity).
      cbn [List.find]. rewrite (p_tag (f c) c (f_tag c)), Hpc. reflexivity.
    - destruct (List.find p (descendants c)) as [s|] eqn:Hd.
      + destruct Hc as (c' & Hup & Hfind). rewrite Hup.
        eexists. split; [reflexivity|].
        cbn [List.flat_map]. rewrite find_app.
        destruct c' as [t' a' x' cs'] eqn:Ec'. rewrite <- Ec' in *.
        replace (iter c') with (c' :: descendants c')
          by (rewrite Ec'; reflexivity).
        cbn [List.find].
        rewrite (p_tag c' c (update_first_tag _ _ Hup)), Hpc, Hfind.
        reflexivity.
      + rewrite Hc.
        destruct (List.find p (List.flat_map iter cs)) as [s|].
        * destruct IHcs as (cs' & Hgo & Hfind). rewrite Hgo.
          eexists. split; [reflexivity|].
          cbn [List.flat_map]. rewrite find_app, Hiter. cbn [List.find].
          rewrite Hpc, Hd. exact Hfind.
        * rewrite IHcs. reflexivity. }
  destruct (List.find p (List.flat_map iter cs)) as [s|].
  - destruct Hgo as (cs' & -> & Hfind). cbn. eexists. split; [reflexivity|].
    exact Hfind.
  - rewrite Hgo. reflexivity.
Qed.

End ElementTrees.

Section Splicer.

(** The [enumerate] loop returns the position of the last matching child:
    the children split there, and no child after it matches. *)
Lemma last_rel_pt_idx_spec (l : list element) (idx : nat) (last : option nat) :
  match last_rel_pt_idx l idx last with
  | Some i =>
      (last = Some i /\ List.filter is_rel_pt l = []) \/
      (exists l1 c l2, l = (l1 ++ c :: l2)%list /\ is_rel_pt c = true /\
                       List.filter is_rel_pt l2 = [] /\
                       i = (idx + length l1)%nat)
  | None => last = None /\ List.filter is_rel_pt l = []
  end.
Proof.
  revert idx last. induction l as [|c l IH]; intros idx last.
  - cbn. destruct last; [left|]; split; reflexivity.
  - cbn [last_rel_pt_idx List.filter]. fold (is_rel_pt c).
    specialize (IH (S idx) (if is_rel_pt c then Some idx else last)).
    destruct (last_rel_pt_idx l (S idx) _) as [i|].
    + destruct IH as [[Hlast Hnil]|(l1 & c' & l2 & -> & Hc' & Hnil & ->)].
      * destruct (is_rel_pt c) eqn:Hc.
        -- right. exists [], c, l. injection Hlast as <-.
           repeat split; try assumption. cbn. lia.
        -- left. split; assumption.
      * right. exists (c :: l1), c', l2.
        repeat split; try assumption. cbn. lia.
    + destruct IH as [Hlast Hnil].
      destruct (is_rel_pt c); [discriminate|]. split; assumption.
Qed.

Lemma filter_app {A} (q : A -> bool) (l1 l2 : list A) :
  List.filter q (l1 ++ l2) = (List.filter q l1 ++ List.filter q l2)%list.
Proof.
  induction l1 as [|a l1 IH]; [reflexivity|].
  cbn. destruct (q a); cbn; now rewrite IH.
Qed.

(** Inserting the FOV space keeps the tag and puts the new space right
    behind the existing ones. *)
Lemma insert_fov_space_tag spaces : tag (insert_fov_space spaces) = tag spaces.
Proof.
  destruct spaces as [t a x cs]. unfold insert_fov_space.
  destruct (last_rel_pt_idx cs 0 None); reflexivity.
Qed.

Lemma insert_fov_space_findall spaces :
  findall RelativePanTiltTranslationSpace (insert_fov_space spaces) =
    (findall RelativePanTiltTranslationSpace spaces ++ [fov_space])%list.
Proof.
  destruct spaces as [t a x cs]. unfold insert_fov_space, findall.
  fold is_rel_pt.
  pose proof (last_rel_pt_idx_spec cs 0 None) as Hspec.
  destruct (last_rel_pt_idx cs 0 None) as [i|]; cbn [children].
  - destruct Hspec as [[Hlast _]|(l1 & c & l2 & -> & Hc & Hnil & ->)];
      [discriminate|].
    unfold insert_at. cbn [Nat.add].
    replace (length l1 + 1)%nat with (length (l1 ++ [c])) by (rewrite length_app; reflexivity).
    replace (l1 ++ c :: l2)%list with ((l1 ++ [c]) ++ l2)%list
      by (rewrite <- app_assoc; reflexivity).
    rewrite take_app_length, drop_app_length.
    rewrite !filter_app. cbn [List.filter]. rewrite Hc, Hnil.
    change (is_rel_pt fov_space) with true. cbn [List.filter].
    rewrite !app_nil_r. rewrite <- app_assoc. reflexivity.
  - destruct Hspec as [_ Hnil]. rewrite filter_app, Hnil. reflexivity.
Qed.

Lemma fov_space_exists_false l :
  fov_space_exists l = inr false -> forall space, In space l -> ~ names_fov space.
Proof.
  induction l as [|s l IH]; [intros _ ? []|].
  cbn [fov_space_exists]. intros Hscan space [<-|Hin] (uri & t & Huri & Htext & Hfov).
  - rewrite Huri, Htext, Hfov in Hscan. discriminate.
  - destruct (find URI s) as [u|]; [destruct (text u) as [t'|]|]; try discriminate.
    + destruct (contains "TranslationSpaceFov" t'); [discriminate|].
      apply (IH Hscan space Hin). exists uri, t. auto.
    + apply (IH Hscan space Hin). exists uri, t. auto.
Qed.

Context {rt : Runtime}.

(** C10: when the [Spaces] element that the splicer locates has no
    [RelativePanTiltTranslationSpace] child, the response is returned as
    it came; nothing is inserted. *)
Theorem add_fov_without_relative_space (soap_response : string)
    (root spaces : element) :
  fromstring soap_response = Some root ->
  find_descendant Spaces root = Some spaces ->
  find RelativePanTiltTranslationSpace spaces = None ->
  add_fov_to_config_options soap_response = soap_response.
Proof.
  intros Hroot Hspaces Hnone. unfold add_fov_to_config_options.
  now rewrite Hroot, Hspaces, Hnone.
Qed.

(** The response is also returned as it came when one of the existing
    spaces already names the FOV space. *)
Lemma add_fov_when_present (soap_response : string) (root spaces space : element) :
  fromstring soap_response = Some root ->
  find_descendant Spaces root = Some spaces ->
  In space (findall RelativePanTiltTranslationSpace spaces) ->
  names_fov space ->
  add_fov_to_config_options soap_response = soap_response.
Proof.
  intros Hroot Hspaces Hin Hfov. unfold add_fov_to_config_options.
  rewrite Hroot, Hspaces.
  destruct (find RelativePanTiltTranslationSpace spaces); [|reflexivity].
  destruct (fov_space_exists _) as [err|[|]] eqn:Hscan; try reflexivity.
  exfalso. exact (fov_space_exists_false _ Hscan space Hin Hfov).
Qed.

Lemma names_fov_fov_space : names_fov fov_space.
Proof.
  eexists _, _. split; [reflexivity|]. split; reflexivity.
Qed.

(** Either the response is returned as it came, or the FOV space is
    inserted into the located [Spaces] and the tree is serialised. *)
Lemma add_fov_cases (soap_response : string) :
  add_fov_to_config_options soap_response = soap_response \/
  exists root spaces,
    fromstring soap_response = Some root /\
    List.find is_spaces (descendants root) = Some spaces /\
    add_fov_to_config_options soap_response =
      tostring (default root (update_first is_spaces insert_fov_space root)).
Proof.
  unfold add_fov_to_config_options.
  destruct (fromstring soap_response) as [root|]; [|left; reflexivity].
  destruct (find_descendant Spaces root) as [spaces|] eqn:Hspaces;
    [|left; reflexivity].
  destruct (find RelativePanTiltTranslationSpace spaces); [|left; reflexivity].
  destruct (fov_space_exists _) as [err|[|]]; try (left; reflexivity).
  right. exists root, spaces. repeat split. exact Hspaces.
Qed.

(** C7: provided lxml reads a parsed tree, once the FOV space is inserted
    and the tree is written out, back as that tree, splicing twice is
    splicing once; and the reason is the early return: a response in
    which an existing [RelativePanTiltTranslationSpace] child of the
    located [Spaces] has a [URI] whose text contains
    [TranslationSpaceFov] is returned unchanged. *)
Theorem add_fov_idempotent :
  (forall soap_response root root',
     fromstring soap_response = Some root ->
     update_first is_spaces insert_fov_space root = Some root' ->
     fromstring (tostring root') = Some root') ->
  forall soap_response,
    add_fov_to_config_options (add_fov_to_config_options soap_response)
      = add_fov_to_config_options soap_response /\
    (forall root spaces space,
       fromstring soap_response = Some root ->
       find_descendant Spaces root = Some spaces ->
       In space (findall RelativePanTiltTranslationSpace spaces) ->
       names_fov space ->
       add_fov_to_config_options soap_response = soap_response).
Proof.
  intros Hcodec soap_response.
  split; [|intros root spaces space; apply add_fov_when_present].
  destruct (add_fov_cases soap_response)
    as [Hsame|(root & spaces & Hroot & Hspaces & Hspliced)].
  - now rewrite !Hsame.
  - rewrite Hspliced.
    pose proof (update_first_find is_spaces insert_fov_space
                  (fun e e' Ht => f_equal (fun t => String.eqb t Spaces) Ht)
                  insert_fov_space_tag root) as Hupd.
    rewrite Hspaces in Hupd. destruct Hupd as (root' & Hroot' & Hfind').
    rewrite Hroot'. cbn [default].
    apply (add_fov_when_present _ root' (insert_fov_space spaces) fov_space).
    + exact (Hcodec _ _ _ Hroot Hroot').
    + exact Hfind'.
    + rewrite insert_fov_space_findall. apply in_or_app. right. now left.
    + exact names_fov_fov_space.
Qed.

End Splicer.

(** *** The reference codec reads back what it writes *)

Section ReferenceCodec.

Lemma of_bits_bits p : Reference.of_bits (Reference.bits p) = Some p.
Proof. induction p as [p IH|p IH|]; cbn; rewrite ?IH; reflexivity. Qed.

Lemma of_tree_to_tree e : Reference.of_tree (Reference.to_tree e) = e.
Proof.
  induction e as [t a x cs IH] using element_rect'.
  cbn [Reference.to_tree Reference.of_tree]. f_equal.
  induction IH as [|c cs Hc _ IHcs]; [reflexivity|].
  cbn [List.map]. now rewrite Hc, IHcs.
Qed.

Lemma reference_codec t : Reference.fromstring (Reference.tostring t) = Some t.
Proof.
  unfold Reference.fromstring, Reference.tostring.
  rewrite of_bits_bits, decode_encode. cbn. now rewrite of_tree_to_tree.
Qed.

End ReferenceCodec.

(** The splice at work: with one generic relative space, the FOV space is
    inserted right behind it, and a second pass changes nothing. *)
Lemma add_fov_inserts_behind_generic_space :
  let generic := generic_space "RelativePanTiltTranslationSpace" in
  let before := Reference.tostring (configuration_options [ generic ]) in
  let after := Reference.tostring (configuration_options [ generic; fov_space ]) in
  add_fov_to_config_options (rt := Reference.runtime) before = after /\
  add_fov_to_config_options (rt := Reference.runtime) after = after.
Proof.
  intros generic before after.
  assert (Hfirst : add_fov_to_config_options (rt := Reference.runtime) before = after).
  { unfold add_fov_to_config_options, before.
    change (@fromstring Reference.runtime) with Reference.fromstring.
    rewrite reference_codec.
    change (@tostring Reference.runtime) with Reference.tostring.
    unfold after. reflexivity. }
  split; [exact Hfirst|].
  apply (add_fov_when_present (rt := Reference.runtime) after
           (configuration_options [ generic; fov_space ])
           (Element Spaces [] None [ generic; fov_space ]) fov_space).
  - apply reference_codec.
  - reflexivity.
  - right. left. reflexivity.
  - exact names_fov_fov_space.
Qed.

Lemma add_fov_without_relative_space_witness :
  let root := configuration_options [ generic_space "AbsolutePanTiltPositionSpace" ] in
  let spaces := Element Spaces [] None [ generic_space "AbsolutePanTiltPositionSpace" ] in
  let soap_response := Reference.tostring root in
  Reference.fromstring soap_response = Some root /\
  find_descendant Spaces root = Some spaces /\
  find RelativePanTiltTranslationSpace spaces = None /\
  add_fov_to_config_options (rt := Reference.runtime) soap_response = soap_response.
Proof.
  intros root spaces soap_response.
  split; [apply reference_codec|].
  split; [reflexivity|]. split; [reflexivity|].
  apply (add_fov_without_relative_space (rt := Reference.runtime)
           soap_response root spaces).
  - apply reference_codec.
  - reflexivity.
  - reflexivity.
Defined.

Lemma add_fov_idempotent_witness :
  let soap_response :=
    Reference.tostring
      (configuration_options [ generic_space "RelativePanTiltTranslationSpace" ]) in
  (forall soap_response root root',
     Reference.fromstring soap_response = Some root ->
     update_first is_spaces insert_fov_space root = Some root' ->
     Reference.fromstring (Reference.tostring root') = Some root') /\
  add_fov_to_config_options (rt := Reference.runtime)
    (add_fov_to_config_options (rt := Reference.runtime) soap_response)
  = add_fov_to_config_options (rt := Reference.runtime) soap_response.
Proof.
  intros soap_response.
  assert (Hreads_back : forall soap_response root root',
     Reference.fromstring soap_response = Some root ->
     update_first is_spaces insert_fov_space root = Some root' ->
     Reference.fromstring (Reference.tostring root') = Some root').
  { intros _ _ root' _ _. apply reference_codec. }
  split; [exact Hreads_back|].
  exact (proj1 (add_fov_idempotent (rt := Reference.runtime) Hreads_back
                  soap_response)).
Defined.

(** ** Address rewriter *)

Section Replace.

Lemma append_cons (c : ascii) (a b : string) :
  String c a +:+ b = String c (a +:+ b).
Proof. reflexivity. Qed.

Lemma append_nil_l (b : string) : "" +:+ b = b.
Proof. reflexivity. Qed.

Lemma append_nil_r (a : string) : a +:+ "" = a.
Proof.
  induction a as [|x a IH]; [reflexivity|]. now rewrite append_cons, IH.
Qed.

Lemma length_append (a b : string) :
  String.length (a +:+ b) = (String.length a + String.length b)%nat.
Proof.
  induction a as [|x a IH]; [reflexivity|].
  rewrite append_cons. cbn [String.length]. now rewrite IH.
Qed.

Lemma prefix_append (old rest : string) : String.prefix old (old +:+ rest) = true.
Proof.
  induction old as [|c old IH]; [destruct rest; reflexivity|].
  rewrite append_cons. cbn [String.prefix].
  destruct (ascii_dec c c); [exact IH | congruence].
Qed.

Lemma prefix_split (old s : string) :
  String.prefix old s = true -> exists rest, s = old +:+ rest.
Proof.
  revert s. induction old as [|c old IH]; intros s Hp.
  - exists s. reflexivity.
  - destruct s as [|d s]; [discriminate|]. cbn [String.prefix] in Hp.
    destruct (ascii_dec c d) as [->|]; [|discriminate].
    destruct (IH s Hp) as [rest ->]. exists rest. reflexivity.
Qed.

(** Skipping a matched text resumes the scan behind it. *)
Lemma replace_from_skip (old new t rest : string) :
  replace_from old new (String.length t) (t +:+ rest) = replace_from old new 0 rest.
Proof.
  induction t as [|c t IH]; [reflexivity|].
  rewrite append_cons. cbn [String.length replace_from]. exact IH.
Qed.

Lemma replace_from_match (old new rest : string) :
  nonempty old = true ->
  replace_from old new 0 (old +:+ rest) = new +:+ replace_from old new 0 rest.
Proof.
  intros Hne. pose proof (prefix_append old rest) as Hp.
  destruct old as [|c o]; [discriminate|].
  rewrite append_cons in *. cbn [replace_from]. rewrite Hp.
  cbn [String.length].
  replace (S (String.length o) - 1) with (String.length o) by lia.
  now rewrite replace_from_skip.
Qed.

Lemma replace_from_clear (old new s tail : string) :
  clear old s tail = true ->
  replace_from old new 0 (s +:+ tail) = s +:+ replace_from old new 0 tail.
Proof.
  induction s as [|c s IH]; [reflexivity|].
  cbn [clear]. intros [Hp Hc]%andb_true_iff. apply negb_true_iff in Hp.
  rewrite !append_cons in *. cbn [replace_from]. rewrite Hp.
  now rewrite IH.
Qed.

Lemma contains_clear (old s : string) :
  contains old s = false -> clear old s EmptyString = true.
Proof.
  induction s as [|c s IH]; [reflexivity|].
  cbn [contains clear]. intros [Hp Hc]%orb_false_iff.
  rewrite append_nil_r, Hp. cbn [negb andb]. now apply IH.
Qed.

(** Without an occurrence of [old], [replace] changes nothing. *)
Lemma replace_absent (old new s : string) :
  contains old s = false -> replace s old new = s.
Proof.
  intros Habsent. unfold replace.
  destruct old as [|c o] eqn:Eo.
  - destruct s; discriminate.
  - rewrite <- Eo in *.
    pose proof (replace_from_clear old new s EmptyString (contains_clear old s Habsent)) as Hr.
    rewrite append_nil_r in Hr. rewrite Hr.
    destruct s; [reflexivity|]. now rewrite append_nil_r.
Qed.

End Replace.

Section ReplaceSame.

(** Replacing a text by itself changes nothing. *)
Lemma replace_same (old s : string) : replace s old old = s.
Proof.
  unfold replace. destruct old as [|c o] eqn:Eo.
  - induction s as [|x s IH]; cbn [intersperse]; [reflexivity|].
    now rewrite append_nil_l, IH.
  - rewrite <- Eo.
    assert (Hne : nonempty old = true) by (rewrite Eo; reflexivity).
    clear Eo c o.
    remember (String.length s) as n eqn:Hn.
    revert s Hn. induction n as [n IH] using lt_wf_ind. intros s ->.
    destruct s as [|x s]; [reflexivity|].
    destruct (String.prefix old (String x s)) eqn:Hp.
    + destruct (prefix_split _ _ Hp) as [rest Hrest]. rewrite Hrest.
      rewrite (replace_from_match old old rest Hne). f_equal.
      apply (IH (String.length rest)); [|reflexivity].
      rewrite Hrest. clear -Hne. destruct old; [discriminate|].
      rewrite append_cons. cbn [String.length]. rewrite length_append. lia.
    + cbn [replace_from]. rewrite Hp. f_equal.
      apply (IH (String.length s)); [cbn [String.length]; lia | reflexivity].
Qed.

End ReplaceSame.

Section Rewriter.

Lemma render_ext (r r' : token -> string) (segs : list segment) :
  (forall t, r t = r' t) -> render r segs = render r' segs.
Proof.
  intros Hext. induction segs as [|[s|t] segs IH]; cbn [render];
    rewrite ?Hext, ?IH; reflexivity.
Qed.

(** One pass: when the scan finds the token [k] exactly where the
    segments have it, [replace] respells that token and nothing else. *)
Lemma replace_render (r : token -> string) (k : token) (new : string)
    (segs : list segment) :
  nonempty (r k) = true ->
  scan_ok r k segs = true ->
  replace (render r segs) (r k) new = render (respell r k new) segs.
Proof.
  intros Hne Hscan.
  assert (Hrepl : replace (render r segs) (r k) new =
                  replace_from (r k) new 0 (render r segs)).
  { unfold replace. destruct (r k); [discriminate | reflexivity]. }
  rewrite Hrepl. clear Hrepl.
  induction segs as [|[s|t] segs IH]; [reflexivity| |];
    cbn [scan_ok render] in *;
    apply andb_true_iff in Hscan as [Hhere Hrest].
  - rewrite (replace_from_clear _ _ _ _ Hhere). now rewrite IH.
  - unfold respell at 1. destruct (token_eqb t k) eqn:Htk.
    + assert (t = k) as -> by (destruct t, k; (reflexivity || discriminate)).
      rewrite (replace_from_match _ _ _ Hne). now rewrite IH.
    + rewrite (replace_from_clear _ _ _ _ Hhere). now rewrite IH.
Qed.

(** C8, as the code has it.  For a payload made of literal text and the
    proxy's tokens (host, [:port/], [:port<]) in which each pass finds
    exactly those tokens, [rewrite_request] yields the same payload with
    the camera's tokens, and [rewrite_response] of that yields the
    original payload again: the round trip restores the references to
    the proxy, it does not remove them.  A payload in which the proxy
    host does not occur, and in which the proxy's port tokens do not
    occur or are the camera's, is unchanged by [rewrite_request]. *)
Theorem rewrite_round_trip (self : ONVIFServiceProxy) (segs : list segment)
    (x : string) :
  well_tokenised self segs = true ->
  contains (proxy_host self) x = false ->
  (proxy_port self = camera_port self \/
   (contains (port_slash (proxy_port self)) x = false /\
    contains (port_lt (proxy_port self)) x = false)) ->
  rewrite_request self (render (proxy_form self) segs)
    = render (camera_form self) segs /\
  rewrite_response self (rewrite_request self (render (proxy_form self) segs))
    = render (proxy_form self) segs /\
  rewrite_request self x = x.
Proof.
  intros Hwt Hhost Hports.
  unfold well_tokenised in Hwt. cbv zeta in Hwt.
  repeat match type of Hwt with
  | (_ && _) = true => apply andb_true_iff in Hwt as [Hwt ?]
  end.
  assert (Hreq : rewrite_request self (render (proxy_form self) segs)
                 = render (camera_form self) segs).
  { unfold rewrite_request.
    rewrite (replace_render (proxy_form self) Host) by assumption.
    rewrite (replace_render (respell (proxy_form self) Host (camera_ip self))
               PortSlash) by (reflexivity || assumption).
    rewrite (replace_render
               (respell (respell (proxy_form self) Host (camera_ip self))
                  PortSlash (port_slash (camera_port self)))
               PortLt) by (reflexivity || assumption).
    apply render_ext. intros []; reflexivity. }
  assert (Hresp : rewrite_response self (render (camera_form self) segs)
                  = render (proxy_form self) segs).
  { unfold rewrite_response.
    rewrite (replace_render (camera_form self) Host) by assumption.
    rewrite (replace_render (respell (camera_form self) Host (proxy_host self))
               PortSlash) by (reflexivity || assumption).
    rewrite (replace_render
               (respell (respell (camera_form self) Host (proxy_host self))
                  PortSlash (port_slash (proxy_port self)))
               PortLt) by (reflexivity || assumption).
    apply render_ext. intros []; reflexivity. }
  split; [exact Hreq|]. split; [now rewrite Hreq|].
  unfold rewrite_request. rewrite (replace_absent _ _ _ Hhost).
  destruct Hports as [->|[Hslash Hlt]].
  - now rewrite !replace_same.
  - now rewrite (replace_absent _ _ _ Hslash), (replace_absent _ _ _ Hlt).
Qed.

End Rewriter.

Lemma rewrite_round_trip_witness :
  let segs :=
    [ Text "<Address>http://"; Tok Host; Tok PortSlash;
      Text "onvif/ptz_service</Address>" ] in
  let x := "<XAddr>http://192.168.1.10:8000/onvif/device_service</XAddr>" in
  well_tokenised scenario_proxy segs = true /\
  contains (proxy_host scenario_proxy) x = false /\
  render (proxy_form scenario_proxy) segs
    = "<Address>http://127.0.0.1:8000/onvif/ptz_service</Address>" /\
  rewrite_request scenario_proxy (render (proxy_form scenario_proxy) segs)
    = "<Address>http://192.168.1.10:8000/onvif/ptz_service</Address>" /\
  rewrite_response scenario_proxy
    (rewrite_request scenario_proxy (render (proxy_form scenario_proxy) segs))
    = render (proxy_form scenario_proxy) segs /\
  rewrite_request scenario_proxy x = x.
Proof.
  intros segs x.
  assert (Hwt : well_tokenised scenario_proxy segs = true) by (vm_compute; reflexivity).
  assert (Hhost : contains (proxy_host scenario_proxy) x = false) by (vm_compute; reflexivity).
  destruct (rewrite_round_trip scenario_proxy segs x Hwt Hhost (or_introl eq_refl))
    as (Hreq & Htrip & Hsame).
  split; [exact Hwt|]. split; [exact Hhost|].
  split; [vm_compute; reflexivity|].
  split; [rewrite Hreq; vm_compute; reflexivity|].
  split; [exact Htrip | exact Hsame].
Defined.

(** C8, as stated, fails: the payload [http://127.0.0.1:8000/onvif/] holds
    only proxy tokens, and after [rewrite_request] followed by
    [rewrite_response] it is the same payload, proxy host included. *)
Lemma rewrite_round_trip_keeps_proxy_host :
  let x := "http://127.0.0.1:8000/onvif/" in
  contains (camera_ip scenario_proxy) x = false /\
  rewrite_request scenario_proxy x = "http://192.168.1.10:8000/onvif/" /\
  rewrite_response scenario_proxy (rewrite_request scenario_proxy x) = x /\
  contains (proxy_host scenario_proxy)
    (rewrite_response scenario_proxy (rewrite_request scenario_proxy x)) = true /\
  contains (port_slash (proxy_port scenario_proxy))
    (rewrite_response scenario_proxy (rewrite_request scenario_proxy x)) = true /\
  ~ (contains (proxy_host scenario_proxy)
       (rewrite_response scenario_proxy (rewrite_request scenario_proxy x)) = false).
Proof.
  cbv zeta. repeat split; try (vm_compute; reflexivity).
  vm_compute. discriminate.
Qed.

(** * Further properties of the interceptor, the router and the tracker *)

(** ** Interceptor: what a request can get back *)

Section InterceptorOutcome.
Context {rt : Runtime}.
Variable cam : Camera.

(** The [try ... except: raise] around a handler body changes nothing. *)
Lemma reraise_run {A} (c : M A) (w : world) : reraise c w = c w.
Proof. unfold reraise, try_except, raise. now destruct (c w) as [[e|a] w']. Qed.

Lemma handled_run (c : M (string * Z)) (w : world) :
  handled c w =
    match c w with
    | (inr r, w') => (inr (Some r), w')
    | (inl e, w') => (inl e, w')
    end.
Proof. reflexivity. Qed.

Lemma answers_ret (response : string) : answers_or_raises (ret (response, 200%Z)).
Proof. intros w. left. now exists response, w. Qed.

Lemma answers_bind {A} (c : M A) (k : A -> M (string * Z)) :
  (forall a, answers_or_raises (k a)) -> answers_or_raises (bind c k).
Proof.
  intros Hk w. unfold bind. destruct (c w) as [[e|a] w'].
  - right. now exists e, w'.
  - apply Hk.
Qed.

Lemma answers_reraise (c : M (string * Z)) :
  answers_or_raises c -> answers_or_raises (reraise c).
Proof. intros Hc w. rewrite reraise_run. apply Hc. Qed.

(** Every handler ends in [return response, 200]. *)
Lemma handlers_answer_or_raise (root : element) :
  answers_or_raises (_handle_get_service_capabilities root) /\
  answers_or_raises (_handle_get_status cam root) /\
  answers_or_raises (_handle_continuous_move cam root) /\
  answers_or_raises (_handle_relative_move cam root) /\
  answers_or_raises (_handle_absolute_move cam root) /\
  answers_or_raises (_handle_stop cam root).
Proof.
  repeat split; apply answers_reraise;
    repeat (apply answers_bind; intros); apply answers_ret.
Qed.

(** The [except] clause of [intercept] turns a handler's exception into
    the fault. *)
Lemma handled_outcome (c : M (string * Z)) (operation : string) (w : world) :
  answers_or_raises c ->
  exists w',
    (exists response,
       try_except (handled c)
         (fun e => ret (Some (build_fault_response "SOAP-ENV:Receiver"
                                ("Error processing " +:+ operation) (exc_str e),
                              500%Z))) w
       = (inr (Some (response, 200%Z)), w'))
    \/ (exists e,
       try_except (handled c)
         (fun e => ret (Some (build_fault_response "SOAP-ENV:Receiver"
                                ("Error processing " +:+ operation) (exc_str e),
                              500%Z))) w
       = (inr (Some (receiver_fault operation e)), w')).
Proof.
  intros Hc. unfold try_except. rewrite handled_run.
  destruct (Hc w) as [(response & w' & ->)|(e & w' & ->)]; exists w'.
  - left. now exists response.
  - right. now exists e.
Qed.


Lemma intercept_returns (operation : string) (root : element) (w : world) :
  exists r w', intercept cam operation root w = (inr r, w').
Proof.
  destruct (handlers_answer_or_raise root)
    as (Hcap & Hstatus & Hcm & Hrm & Ham & Hstop).
  unfold intercept.
  repeat match goal with
  | |- context [if String.eqb operation ?k then _ else _] =>
      destruct (String.eqb operation k)
  end;
  try (exists None, w; reflexivity);
  match goal with
  | |- context [handled ?c] =>
      destruct (handled_outcome c operation w ltac:(assumption))
        as [w' [[response H]|[e H]]];
      eexists; exists w'; exact H
  end.
Qed.

(** An operation outside the handled ones, [GetConfigurationOptions]
    included, is not intercepted, and the world is left as it was. *)
Lemma intercept_untracked_operation (operation : string) (root : element)
    (w : world) :
  operation ∉ tracked_operations ->
  intercept cam operation root w = (inr None, w).
Proof.
  intros Hnot. unfold intercept, try_except.
  repeat match goal with
  | |- context [String.eqb operation ?k] =>
      destruct (String.eqb_spec operation k) as [->|_];
      [ try reflexivity; exfalso; apply Hnot; unfold tracked_operations; set_solver | ]
  end.
  reflexivity.
Qed.

(** X2: a request that the parser of a move operation rejects (an
    attribute or a timeout that [float] does not read) is answered with
    the 500 fault carrying the exception's message, before anything is
    sent to the camera and with the tracker untouched. *)
Theorem parse_error_is_a_fault (root : element) (w : world) (e : exn) :
  (parse_ptz_continuous_move root = inl e ->
     intercept cam "ContinuousMove" root w
       = (inr (Some (receiver_fault "ContinuousMove" e)), w)) /\
  (parse_ptz_relative_move root = inl e ->
     intercept cam "RelativeMove" root w
       = (inr (Some (receiver_fault "RelativeMove" e)), w)) /\
  (parse_ptz_absolute_move root = inl e ->
     intercept cam "AbsoluteMove" root w
       = (inr (Some (receiver_fault "AbsoluteMove" e)), w)).
Proof.
  repeat split; intros Hparse; unfold intercept, try_except;
    repeat match goal with
    | |- context [String.eqb ?a ?b] =>
        let v := eval vm_compute in (String.eqb a b) in
        change (String.eqb a b) with v
    end;
    cbv iota; unfold handled, bind at 1;
    unfold _handle_continuous_move, _handle_relative_move, _handle_absolute_move;
    rewrite reraise_run; unfold bind at 1, lift; rewrite Hparse; reflexivity.
Qed.

(** X3: when the camera refuses the call that a move handler makes, the
    client gets the 500 fault carrying the camera's message; the call is
    in the log of outbound calls and nothing else has changed. *)
Theorem camera_refusal_is_a_fault (root : element) (w : world) (e : exn) :
  (forall params,
     parse_ptz_continuous_move root = inr params ->
     ptz_service cam (sent w) (CamContinuousMove params) = Some e ->
     intercept cam "ContinuousMove" root w
       = (inr (Some (receiver_fault "ContinuousMove" e)),
          record_sent (Zeep (CamContinuousMove params)) w)) /\
  (forall params,
     parse_ptz_absolute_move root = inr params ->
     ptz_service cam (sent w) (CamAbsoluteMove params) = Some e ->
     intercept cam "AbsoluteMove" root w
       = (inr (Some (receiver_fault "AbsoluteMove" e)),
          record_sent (Zeep (CamAbsoluteMove params)) w)) /\
  (forall params zoom,
     parse_ptz_relative_move root = inr params ->
     v_PanTilt (rm_Translation params) = None ->
     v_Zoom (rm_Translation params) = Some zoom ->
     ptz_service cam (sent w) (CamRelativeMove params) = Some e ->
     intercept cam "RelativeMove" root w
       = (inr (Some (receiver_fault "RelativeMove" e)),
          record_sent (Zeep (CamRelativeMove params)) w)).
Proof.
  split; [|split].
  - intros params Hparse Hcam. unfold intercept, try_except.
    repeat match goal with
    | |- context [String.eqb ?a ?b] =>
        let v := eval vm_compute in (String.eqb a b) in
        change (String.eqb a b) with v
    end.
    cbv iota. unfold handled, bind at 1. unfold _handle_continuous_move.
    rewrite reraise_run. unfold bind at 1, lift. rewrite Hparse.
    unfold bind at 1. rewrite (ContinuousMove_refused _ _ _ _ Hcam). reflexivity.
  - intros params Hparse Hcam. unfold intercept, try_except.
    repeat match goal with
    | |- context [String.eqb ?a ?b] =>
        let v := eval vm_compute in (String.eqb a b) in
        change (String.eqb a b) with v
    end.
    cbv iota. unfold handled, bind at 1. unfold _handle_absolute_move.
    rewrite reraise_run. unfold bind at 1, lift. rewrite Hparse.
    unfold bind at 1. unfold AbsoluteMove, bind at 1, call_ptz. rewrite Hcam.
    reflexivity.
  - intros params zoom Hparse Hpt Hzoom Hcam. unfold intercept, try_except.
    repeat match goal with
    | |- context [String.eqb ?a ?b] =>
        let v := eval vm_compute in (String.eqb a b) in
        change (String.eqb a b) with v
    end.
    cbv iota. unfold handled, bind at 1. unfold _handle_relative_move.
    rewrite reraise_run. unfold bind at 1, lift. rewrite Hparse.
    cbv beta iota zeta. rewrite Hpt, Hzoom.
    unfold bind at 1. unfold RelativeMove, bind at 1, call_ptz. rewrite Hcam.
    reflexivity.
Qed.



End InterceptorOutcome.

Lemma parse_error_is_a_fault_witness :
  let root := absolute_move_request "left" "0" in
  let e := Reference.value_error "left" in
  parse_ptz_absolute_move (rt := Reference.runtime) root = inl e /\
  intercept (rt := Reference.runtime) obliging_camera "AbsoluteMove" root
    world_at_rest
    = (inr (Some (receiver_fault "AbsoluteMove" e)), world_at_rest).
Proof.
  intros root e.
  assert (Hparse : parse_ptz_absolute_move (rt := Reference.runtime) root = inl e)
    by (vm_compute; reflexivity).
  split; [exact Hparse|].
  exact (proj2 (proj2 (parse_error_is_a_fault (rt := Reference.runtime)
                         obliging_camera root world_at_rest e)) Hparse).
Defined.

Lemma camera_refusal_is_a_fault_witness :
  let root := absolute_move_request "0.5" "0" in
  let e := Exn OtherError "Action not supported" in
  let params :=
    {| am_ProfileToken := Some "PROFILE_000";
       am_Position :=
         {| v_PanTilt := Some {| pt_x := 1 # 2; pt_y := 0; pt_space := Some "" |};
            v_Zoom := None |} |} in
  parse_ptz_absolute_move (rt := Reference.runtime) root = inr params /\
  intercept (rt := Reference.runtime) (failing_camera e) "AbsoluteMove" root
    world_at_rest
    = (inr (Some (receiver_fault "AbsoluteMove" e)),
       record_sent (Zeep (CamAbsoluteMove params)) world_at_rest).
Proof.
  intros root e params.
  assert (Hparse : parse_ptz_absolute_move (rt := Reference.runtime) root = inr params)
    by (vm_compute; reflexivity).
  split; [exact Hparse|].
  exact (proj1 (proj2 (camera_refusal_is_a_fault (rt := Reference.runtime)
                         (failing_camera e) root world_at_rest e))
           params Hparse eq_refl).
Defined.

(** ** Request router *)

Section Router.
Context {rt : Runtime}.
Variable cam : Camera.
Variable service_proxy : ONVIFServiceProxy.

Lemma forward_request_returns (service soap_body : string) (timeout : Z) (w : world) :
  exists text code,
    forward_request cam service_proxy service soap_body timeout w
      = (inr (text, code),
         record_sent (Post (build_request service_proxy service soap_body timeout)) w).
Proof.
  unfold forward_request, bind, post.
  destruct (requests_post cam (sent w) _) as [text code|e];
    [|destruct (is_Timeout e); [|destruct (is_ConnectionError e)]];
    eexists; eexists; reflexivity.
Qed.

(** X6: the request handler never raises: for every service name, body
    and camera behaviour it returns a response, and the response's
    content type is [application/soap+xml; charset=utf-8]. *)
Theorem handle_onvif_request_always_answers (service soap_body : string) (w : world) :
  exists response w',
    handle_onvif_request cam service_proxy service soap_body w = (inr response, w')
    /\ mimetype response = soap_mimetype.
Proof.
  unfold handle_onvif_request.
  destruct (parse_soap_request soap_body) as [operation root].
  set (intercepted := match operation with Some _ => _ | None => _ end).
  assert (Hint : exists r w1, intercepted w = (inr r, w1)).
  { subst intercepted.
    destruct operation as [[|c operation]|], root as [root|];
      try (exists None, w; reflexivity).
    destruct (String.eqb (normalized_service service) "ptz_service");
      [apply intercept_returns | exists None, w; reflexivity]. }
  destruct Hint as (r & w1 & Hint).
  unfold bind at 1. rewrite Hint.
  destruct r as [[response code]|].
  - eexists; eexists; split; reflexivity.
  - destruct (forward_request_returns (normalized_service service) soap_body 10 w1)
      as (text & code & Hfwd).
    unfold bind. rewrite Hfwd. eexists; eexists; split; reflexivity.
Qed.

(** X7: only the PTZ service is intercepted.  A request for a service
    whose normalised name is not [ptz_service] is forwarded to the camera
    whatever its operation is, [GetStatus] and [GetConfigurationOptions]
    included: one POST goes out, the forwarder's answer is returned as it
    is, and the tracker is not touched. *)
Theorem other_services_are_forwarded (service soap_body : string) (w : world) :
  normalized_service service <> "ptz_service" ->
  let request :=
    build_request service_proxy (normalized_service service) soap_body 10 in
  let '(result, w') :=
    handle_onvif_request cam service_proxy service soap_body w in
  w' = record_sent (Post request) w /\
  exists text code,
    forward_request cam service_proxy (normalized_service service) soap_body 10 w
      = (inr (text, code), w') /\
    result = inr {| body := text; status := code; mimetype := soap_mimetype |}.
Proof.
  intros Hother. cbv zeta. unfold handle_onvif_request.
  destruct (parse_soap_request soap_body) as [operation root].
  destruct (String.eqb_spec (normalized_service service) "ptz_service")
    as [Heq|_]; [contradiction|].
  cbn [andb]. unfold bind at 1.
  match goal with
  | |- context [match ?c w with pair _ _ => _ end] =>
      replace (c w) with (@inr exn (option (string * Z)) None, w)
        by (symmetry; destruct operation as [[|? ?]|], root as [?|]; reflexivity)
  end.
  destruct (forward_request_returns (normalized_service service) soap_body 10 w)
    as (text & code & Hfwd).
  unfold bind. rewrite Hfwd.
  split; [reflexivity|]. exists text, code. split; reflexivity.
Qed.

(** X8: a PTZ operation outside the handled ones is forwarded with one
    POST and without any call by the interceptor; the FOV splice is
    applied to the forwarder's answer exactly when the operation is
    [GetConfigurationOptions], whatever the status code of that answer. *)
Theorem untracked_ptz_operations_are_forwarded
    (service soap_body operation : string) (root : element) (w : world) :
  parse_soap_request soap_body = (Some operation, Some root) ->
  operation <> "" ->
  operation ∉ tracked_operations ->
  normalized_service service = "ptz_service" ->
  let request := build_request service_proxy "ptz_service" soap_body 10 in
  let '(result, w') :=
    handle_onvif_request cam service_proxy service soap_body w in
  w' = record_sent (Post request) w /\
  exists text code,
    forward_request cam service_proxy "ptz_service" soap_body 10 w
      = (inr (text, code), w') /\
    result =
      inr {| body := if String.eqb operation "GetConfigurationOptions"
                     then add_fov_to_config_options text else text;
             status := code; mimetype := soap_mimetype |}.
Proof.
  intros Hparse Hne Hnot Hservice. cbv zeta. unfold handle_onvif_request.
  rewrite Hparse, Hservice.
  change (String.eqb "ptz_service" "ptz_service") with true. cbn [andb].
  destruct operation as [|c operation]; [contradiction|]. cbv iota.
  unfold bind at 1.
  rewrite (intercept_untracked_operation cam _ root w Hnot).
  destruct (forward_request_returns "ptz_service" soap_body 10 w)
    as (text & code & Hfwd).
  unfold bind. rewrite Hfwd.
  split; [reflexivity|]. exists text, code. split; [reflexivity|].
  unfold ret. repeat f_equal.
  destruct (String.eqb_spec (String c operation) "GetConfigurationOptions") as [->|Hno].
  - now rewrite bool_decide_eq_true_2.
  - rewrite bool_decide_eq_false_2; [reflexivity|]. congruence.
Qed.

(** *** What the handlers send *)

Lemma tracker_method_sent (op : tracker_op) (call : ptz_request) (w : world) :
  camera_call op = Some call ->
  sent (snd (tracker_method cam op w)) = (sent w ++ [Zeep call])%list.
Proof.
  intros Hcall.
  destruct op as [r|r|r|r|key]; cbn [camera_call] in Hcall;
    try discriminate; injection Hcall as <-; cbn [tracker_method].
  - destruct (ptz_service cam (sent w) (CamContinuousMove r)) as [e|] eqn:Hcam.
    + now rewrite (ContinuousMove_refused _ _ _ _ Hcam).
    + now rewrite (ContinuousMove_accepted _ _ _ Hcam).
  - unfold RelativeMove, bind, call_ptz.
    destruct (ptz_service cam (sent w) (CamRelativeMove r)); [reflexivity|].
    destruct (v_PanTilt (rm_Translation r)), (v_Zoom (rm_Translation r));
      reflexivity.
  - unfold AbsoluteMove, bind, call_ptz.
    destruct (ptz_service cam (sent w) (CamAbsoluteMove r)); [reflexivity|].
    destruct (v_PanTilt (am_Position r)), (v_Zoom (am_Position r));
      reflexivity.
  - unfold Stop, bind, call_ptz.
    destruct (ptz_service cam (sent w) (CamStop r)); [reflexivity|].
    destruct (st_PanTilt r), (st_Zoom r); reflexivity.
Qed.

Lemma silent_calls {A} (c : M A) :
  (forall w, sent (snd (c w)) = sent w) -> calls_at_most_once c.
Proof.
  intros Hc w. exists []. rewrite app_nil_r. split; [apply Hc|].
  split; [cbn; lia | constructor].
Qed.

Lemma tracker_method_calls (op : tracker_op) (call : ptz_request) :
  camera_call op = Some call -> calls_at_most_once (tracker_method cam op).
Proof.
  intros Hcall w. exists [Zeep call].
  split; [now apply tracker_method_sent|].
  split; [cbn; lia | repeat constructor].
Qed.

Lemma calls_then_answer {A} (c : M A) (k : A -> string * Z) :
  calls_at_most_once c ->
  calls_at_most_once (reraise (bind c (fun a => ret (k a)))).
Proof.
  intros Hc w. rewrite reraise_run. unfold bind, ret.
  destruct (Hc w) as (l & Hl & Hlen & Hpost). exists l.
  destruct (c w) as [[e|a] w']; now repeat split.
Qed.

Lemma calls_after_parse {A} (parsed : exn + A) (k : A -> M unit)
    (response : string * Z) :
  (forall a, calls_at_most_once (k a)) ->
  calls_at_most_once
    (reraise (bind (lift parsed) (fun a => bind (k a) (fun _ => ret response)))).
Proof.
  intros Hk w. rewrite reraise_run. unfold bind at 1, lift.
  destruct parsed as [e|a].
  - exists []. rewrite app_nil_r. split; [reflexivity|].
    split; [cbn; lia | constructor].
  - unfold bind, ret. destruct (Hk a w) as (l & Hl & Hlen & Hpost). exists l.
    destruct (k a w) as [[e|[]] w']; now repeat split.
Qed.

(** Each handler makes at most one call, on the PTZ binding. *)
Lemma handlers_call_at_most_once (root : element) :
  calls_at_most_once (_handle_get_service_capabilities root) /\
  calls_at_most_once (_handle_get_status cam root) /\
  calls_at_most_once (_handle_continuous_move cam root) /\
  calls_at_most_once (_handle_relative_move cam root) /\
  calls_at_most_once (_handle_absolute_move cam root) /\
  calls_at_most_once (_handle_stop cam root).
Proof.
  repeat split.
  - now apply silent_calls.
  - apply (calls_then_answer (GetStatus cam (parse_ptz_getstatus root))
             (fun status => (build_ptz_status_response status, 200%Z))).
    intros w. unfold GetStatus, bind, gets.
    destruct (_native_status_support (wrapper w)).
    + exists [ZeepGetStatus (parse_ptz_getstatus root)].
      unfold try_except, call_GetStatus, simulated, gets.
      destruct (ptz_GetStatus cam (sent w) _);
        (split; [reflexivity|]; split; [cbn; lia | repeat constructor]).
    + exists []. rewrite app_nil_r. split; [reflexivity|].
      split; [cbn; lia | constructor].
  - apply calls_after_parse. intros params.
    exact (tracker_method_calls (OpContinuousMove params) _ eq_refl).
  - apply calls_after_parse. intros params.
    destruct (v_PanTilt (rm_Translation params)) as [pan_tilt|].
    + intros w. unfold bind, modify.
      match goal with
      | |- context [ContinuousMove cam ?r w] =>
          destruct (tracker_method_calls (OpContinuousMove r) _ eq_refl w)
            as (l & Hl & Hlen & Hpost);
          cbn [tracker_method] in Hl;
          exists l; destruct (ContinuousMove cam r w) as [[e|[]] w']
      end; now repeat split.
    + destruct (v_Zoom (rm_Translation params)).
      * exact (tracker_method_calls (OpRelativeMove params) _ eq_refl).
      * now apply silent_calls.
  - apply calls_after_parse. intros params.
    exact (tracker_method_calls (OpAbsoluteMove params) _ eq_refl).
  - apply (calls_then_answer
             (ContinuousMove cam
                {| cm_ProfileToken := st_ProfileToken (parse_ptz_stop root);
                   cm_Velocity := zero_velocity; cm_Timeout := None |})
             (fun _ => (build_simple_response "Stop" "tptz", 200%Z))).
    exact (tracker_method_calls (OpContinuousMove _) _ eq_refl).
Qed.

(** X9: a handled PTZ operation is answered by the interceptor and never
    forwarded.  The response is the interceptor's; no POST goes out; at
    most one call is made, and it is a call on the PTZ binding. *)
Theorem tracked_operations_are_answered_locally
    (service soap_body operation : string) (root : element) (w : world) :
  parse_soap_request soap_body = (Some operation, Some root) ->
  operation ∈ tracked_operations ->
  normalized_service service = "ptz_service" ->
  let '(result, w') :=
    handle_onvif_request cam service_proxy service soap_body w in
  (exists l,
     sent w' = (sent w ++ l)%list /\ (length l <= 1)%nat /\
     Forall (fun o => is_post o = false) l) /\
  exists response code,
    intercept cam operation root w = (inr (Some (response, code)), w') /\
    result = inr {| body := response; status := code; mimetype := soap_mimetype |}.
Proof.
  intros Hparse Htracked Hservice. unfold handle_onvif_request.
  rewrite Hparse, Hservice.
  change (String.eqb "ptz_service" "ptz_service") with true.
  assert (Hint : exists response code w1,
            intercept cam operation root w = (inr (Some (response, code)), w1) /\
            exists l, sent w1 = (sent w ++ l)%list /\ (length l <= 1)%nat /\
                      Forall (fun o => is_post o = false) l).
  { destruct (handlers_call_at_most_once root)
      as (Hcap & Hstatus & Hcm & Hrm & Ham & Hstop).
    destruct (handlers_answer_or_raise cam root)
      as (Acap & Astatus & Acm & Arm & Aam & Astop).
    unfold tracked_operations in Htracked.
    repeat (apply elem_of_cons in Htracked as [->|Htracked]);
      [ .. | now apply elem_of_nil in Htracked ];
      unfold intercept, try_except;
      repeat match goal with
      | |- context [String.eqb ?a ?b] =>
          let v := eval vm_compute in (String.eqb a b) in
          change (String.eqb a b) with v
      end;
      cbv iota; rewrite handled_run;
      match goal with
      | |- context [match ?h w with pair _ _ => _ end] =>
          let Hc := fresh in
          let Ha := fresh in
          assert (Hc : calls_at_most_once h) by assumption;
          assert (Ha : answers_or_raises h) by assumption;
          destruct (Hc w) as (l & Hl & Hlen & Hpost);
          destruct (Ha w) as [(response & w1 & Hrun)|(e & w1 & Hrun)];
          rewrite Hrun in *; cbn [snd] in Hl;
          eexists; eexists; exists w1; (split; [reflexivity|]);
          exists l; now repeat split
      end. }
  destruct Hint as (response & code & w1 & Hrun & Hsent).
  destruct operation as [|c operation].
  { exfalso. unfold tracked_operations in Htracked.
    repeat (apply elem_of_cons in Htracked as [Htracked|Htracked];
            [discriminate Htracked|]).
    now apply elem_of_nil in Htracked. }
  cbv iota. unfold bind at 1. rewrite Hrun.
  split; [exact Hsent|]. exists response, code. split; reflexivity.
Qed.

End Router.

Lemma reference_parse_soap_request (root : element) :
  parse_soap_request (rt := Reference.runtime) (Reference.tostring root) =
    match
      match find_descendant (clark SOAP12 "Body") root with
      | Some b => Some b
      | None => find_descendant (clark SOAP11 "Body") root
      end
    with
    | Some (Element _ _ _ (operation_elem :: _)) =>
        (Some (localname operation_elem), Some root)
    | _ => (None, Some root)
    end.
Proof.
  unfold parse_soap_request.
  change (@fromstring Reference.runtime) with Reference.fromstring.
  now rewrite reference_codec.
Qed.

Lemma other_services_are_forwarded_witness :
  let soap_body := Reference.tostring stop_request in
  let request := build_request scenario_proxy "media_service" soap_body 10 in
  normalized_service "media" <> "ptz_service" /\
  handle_onvif_request (rt := Reference.runtime) obliging_camera scenario_proxy
    "media" soap_body world_at_rest
  = (inr {| body := "<ok/>"; status := 200; mimetype := soap_mimetype |},
     record_sent (Post request) world_at_rest).
Proof.
  intros soap_body request.
  assert (Hother : normalized_service "media" <> "ptz_service")
    by (vm_compute; discriminate).
  split; [exact Hother|].
  pose proof (other_services_are_forwarded (rt := Reference.runtime)
                obliging_camera scenario_proxy "media" soap_body world_at_rest
                Hother) as Hthm.
  cbv zeta in Hthm.
  destruct (handle_onvif_request obliging_camera scenario_proxy "media" soap_body
              world_at_rest) as [result w'].
  destruct Hthm as (Hw & text & code & Hfwd & Hres).
  rewrite Hres, Hw. unfold forward_request, bind, post in Hfwd.
  cbn [obliging_camera requests_post ret] in Hfwd.
  injection Hfwd as <- <- _. reflexivity.
Defined.

Lemma untracked_ptz_operations_are_forwarded_witness :
  let soap_body := Reference.tostring get_nodes_request in
  let request := build_request scenario_proxy "ptz_service" soap_body 10 in
  parse_soap_request (rt := Reference.runtime) soap_body
    = (Some "GetNodes", Some get_nodes_request) /\
  "GetNodes" <> "" /\
  ("GetNodes" ∉ tracked_operations) /\
  normalized_service "ptz" = "ptz_service" /\
  handle_onvif_request (rt := Reference.runtime) obliging_camera scenario_proxy
    "ptz" soap_body world_at_rest
  = (inr {| body := "<ok/>"; status := 200; mimetype := soap_mimetype |},
     record_sent (Post request) world_at_rest).
Proof.
  intros soap_body request.
  assert (Hparse : parse_soap_request (rt := Reference.runtime) soap_body
                   = (Some "GetNodes", Some get_nodes_request))
    by (unfold soap_body; rewrite reference_parse_soap_request; reflexivity).
  assert (Hne : "GetNodes" <> "") by discriminate.
  assert (Hnot : "GetNodes" ∉ tracked_operations).
  { unfold tracked_operations. intros Hin.
    repeat (apply elem_of_cons in Hin as [Hin|Hin]; [discriminate Hin|]).
    now apply elem_of_nil in Hin. }
  assert (Hservice : normalized_service "ptz" = "ptz_service") by reflexivity.
  split; [exact Hparse|]. split; [exact Hne|]. split; [exact Hnot|].
  split; [exact Hservice|].
  pose proof (untracked_ptz_operations_are_forwarded (rt := Reference.runtime)
                obliging_camera scenario_proxy "ptz" soap_body "GetNodes"
                get_nodes_request world_at_rest Hparse Hne Hnot Hservice) as Hthm.
  cbv zeta in Hthm.
  destruct (handle_onvif_request obliging_camera scenario_proxy "ptz" soap_body
              world_at_rest) as [result w'].
  destruct Hthm as (Hw & text & code & Hfwd & Hres).
  rewrite Hres, Hw. unfold forward_request, bind, post in Hfwd.
  cbn [obliging_camera requests_post ret] in Hfwd.
  injection Hfwd as <- <- _. reflexivity.
Defined.

Lemma tracked_operations_are_answered_locally_witness :
  let soap_body := Reference.tostring stop_request in
  parse_soap_request (rt := Reference.runtime) soap_body
    = (Some "Stop", Some stop_request) /\
  "Stop" ∈ tracked_operations /\
  normalized_service "ptz" = "ptz_service" /\
  let '(result, w') :=
    handle_onvif_request (rt := Reference.runtime) obliging_camera scenario_proxy
      "ptz" soap_body world_at_rest in
  exists l,
    sent w' = (sent world_at_rest ++ l)%list /\ (length l <= 1)%nat /\
    Forall (fun o => is_post o = false) l.
Proof.
  intros soap_body.
  assert (Hparse : parse_soap_request (rt := Reference.runtime) soap_body
                   = (Some "Stop", Some stop_request))
    by (unfold soap_body; rewrite reference_parse_soap_request; reflexivity).
  assert (Htracked : "Stop" ∈ tracked_operations)
    by (unfold tracked_operations; set_solver).
  assert (Hservice : normalized_service "ptz" = "ptz_service") by reflexivity.
  split; [exact Hparse|]. split; [exact Htracked|]. split; [exact Hservice|].
  pose proof (tracked_operations_are_answered_locally (rt := Reference.runtime)
                obliging_camera scenario_proxy "ptz" soap_body "Stop"
                stop_request world_at_rest Hparse Htracked Hservice) as Hthm.
  destruct (handle_onvif_request obliging_camera scenario_proxy "ptz" soap_body
              world_at_rest) as [result w'].
  exact (proj1 Hthm).
Defined.

(** ** Tracker: timers and statuses *)

Section TrackerTimers.

(** X10: a status set to [MOVING] with a positive duration installs a
    live timer of that duration; when the timer fires the axis is [IDLE],
    the other axis, its timer and the position are as they were, and the
    timer does not fire again; a status update in between cancels the
    timer, and a cancelled timer changes nothing.  This holds for the
    pan/tilt axis and for the zoom axis. *)
Theorem timer_returns_axis_to_idle (duration : Q) (self : ONVIFPTZWrapper) :
  lt 0 duration = true ->
  (let moving := _set_pan_tilt_status MOVING duration self in
   let fired := timer_fires "pantilt" moving in
   let stopped := _set_pan_tilt_status IDLE 0 moving in
   _pan_tilt_status moving = MOVING /\
   _stop_timers moving !! "pantilt" = Some {| interval := duration; alive := true |} /\
   _pan_tilt_status fired = IDLE /\
   _zoom_status fired = _zoom_status self /\
   _stop_timers fired !! "zoom" = _stop_timers self !! "zoom" /\
   _estimated_position fired = _estimated_position self /\
   timer_fires "pantilt" fired = fired /\
   _stop_timers stopped !! "pantilt" = Some {| interval := duration; alive := false |} /\
   timer_fires "pantilt" stopped = stopped) /\
  (let moving := _set_zoom_status MOVING duration self in
   let fired := timer_fires "zoom" moving in
   let stopped := _set_zoom_status IDLE 0 moving in
   _zoom_status moving = MOVING /\
   _stop_timers moving !! "zoom" = Some {| interval := duration; alive := true |} /\
   _zoom_status fired = IDLE /\
   _pan_tilt_status fired = _pan_tilt_status self /\
   _stop_timers fired !! "pantilt" = _stop_timers self !! "pantilt" /\
   _estimated_position fired = _estimated_position self /\
   timer_fires "zoom" fired = fired /\
   _stop_timers stopped !! "zoom" = Some {| interval := duration; alive := false |} /\
   timer_fires "zoom" stopped = stopped).
Proof.
  intros Hpos. split; cbv zeta.
  - pose proof (set_pan_tilt_status_facts MOVING duration self) as Hm.
    cbv zeta in Hm. cbn [is_moving andb] in Hm. rewrite Hpos in Hm.
    destruct Hm as (Hm1 & Hm2 & Hm3 & Hm4 & Hm5).
    set (moving := _set_pan_tilt_status MOVING duration self) in *.
    assert (Hfired : timer_fires "pantilt" moving =
              with_pan_tilt_status IDLE
                (with_timers (<["pantilt" := {| interval := duration; alive := false |}]>
                                (_stop_timers moving)) moving)).
    { unfold timer_fires. rewrite Hm5. reflexivity. }
    pose proof (set_pan_tilt_status_facts IDLE 0 moving) as Hs.
    cbv zeta in Hs. cbn [is_moving andb] in Hs.
    destruct Hs as (Hs1 & Hs2 & Hs3 & Hs4 & Hs5). rewrite Hm5 in Hs5.
    repeat split; try assumption.
    + now rewrite Hfired.
    + now rewrite Hfired.
    + rewrite Hfired. cbn [with_pan_tilt_status with_timers _stop_timers].
      now rewrite lookup_insert_ne by discriminate.
    + now rewrite Hfired.
    + rewrite Hfired at 1. unfold timer_fires at 1.
      cbn [with_pan_tilt_status with_timers _stop_timers].
      rewrite lookup_insert_eq. cbn [alive]. now rewrite <- Hfired.
    + unfold timer_fires. rewrite Hs5. reflexivity.
  - pose proof (set_zoom_status_facts MOVING duration self) as Hm.
    cbv zeta in Hm. cbn [is_moving andb] in Hm. rewrite Hpos in Hm.
    destruct Hm as (Hm1 & Hm2 & Hm3 & Hm4 & Hm5).
    set (moving := _set_zoom_status MOVING duration self) in *.
    assert (Hfired : timer_fires "zoom" moving =
              with_zoom_status IDLE
                (with_timers (<["zoom" := {| interval := duration; alive := false |}]>
                                (_stop_timers moving)) moving)).
    { unfold timer_fires. rewrite Hm5. reflexivity. }
    pose proof (set_zoom_status_facts IDLE 0 moving) as Hs.
    cbv zeta in Hs. cbn [is_moving andb] in Hs.
    destruct Hs as (Hs1 & Hs2 & Hs3 & Hs4 & Hs5). rewrite Hm5 in Hs5.
    repeat split; try assumption.
    + now rewrite Hfired.
    + now rewrite Hfired.
    + rewrite Hfired. cbn [with_zoom_status with_timers _stop_timers].
      now rewrite lookup_insert_ne by discriminate.
    + now rewrite Hfired.
    + rewrite Hfired at 1. unfold timer_fires at 1.
      cbn [with_zoom_status with_timers _stop_timers].
      rewrite lookup_insert_eq. cbn [alive]. now rewrite <- Hfired.
    + unfold timer_fires. rewrite Hs5. reflexivity.
Qed.

(** *** Every [MOVING] axis has a live timer *)








(** X12: [cleanup] cancels and forgets the timers and nothing else: the
    statuses and the position stay, no timer fires afterwards, so an axis
    that was [MOVING] keeps reporting [MOVING]. *)
Theorem cleanup_strands_a_moving_axis (self : ONVIFPTZWrapper) (key : string) :
  _pan_tilt_status (cleanup self) = _pan_tilt_status self /\
  _zoom_status (cleanup self) = _zoom_status self /\
  _estimated_position (cleanup self) = _estimated_position self /\
  timer_fires key (cleanup self) = cleanup self /\
  (_pan_tilt_status self = MOVING \/ _zoom_status self = MOVING ->
   ~ timers_pending (cleanup self)).
Proof.
  split; [reflexivity|]. split; [reflexivity|]. split; [reflexivity|].
  split.
  - unfold timer_fires, cleanup. cbn [with_timers _stop_timers].
    now rewrite lookup_empty.
  - intros Hmoving [Hp Hz]. unfold cleanup in Hp, Hz.
    cbn [with_timers _stop_timers _pan_tilt_status _zoom_status] in Hp, Hz.
    destruct Hmoving as [Hm|Hm].
    + destruct (Hp Hm) as (t & Ht & _). now rewrite lookup_empty in Ht.
    + destruct (Hz Hm) as (t & Ht & _). now rewrite lookup_empty in Ht.
Qed.

End TrackerTimers.

Lemma timer_returns_axis_to_idle_witness :
  lt 0 5 = true /\
  _pan_tilt_status
    (timer_fires "pantilt" (_set_pan_tilt_status MOVING 5 wrapper_at_rest)) = IDLE /\
  _zoom_status
    (timer_fires "zoom" (_set_zoom_status MOVING 5 wrapper_at_rest)) = IDLE.
Proof.
  split; [reflexivity|].
  pose proof (timer_returns_axis_to_idle 5 wrapper_at_rest eq_refl) as [Hpt Hzoom].
  split; [exact (proj1 (proj2 (proj2 Hpt))) | exact (proj1 (proj2 (proj2 Hzoom)))].
Defined.


Lemma run_ops_in_range_witness :
  let move :=
    {| cm_ProfileToken := Some "PROFILE_000";
       cm_Velocity :=
         {| v_PanTilt := Some {| pt_x := 1; pt_y := -1; pt_space := None |};
            v_Zoom := Some {| z_x := 1; z_space := None |} |};
       cm_Timeout := Some 60%Q |} in
  let ops := [ OpContinuousMove move; OpContinuousMove move; OpTimerFires "pantilt" ] in
  Forall valid_op ops /\
  in_range (_estimated_position (wrapper world_at_rest)) /\
  in_range (_estimated_position (wrapper (run_ops obliging_camera world_at_rest ops))).
Proof.
  intros move ops.
  assert (Hops : Forall valid_op ops) by (repeat constructor).
  assert (Hrest : in_range (_estimated_position (wrapper world_at_rest)))
    by (repeat split; discriminate).
  split; [exact Hops|]. split; [exact Hrest|].
  exact (run_ops_in_range obliging_camera ops world_at_rest Hops Hrest).
Defined.

(** ** Tracker: the movement methods *)

Section TrackerMethods.

(** X14: the tracker forwards first and tracks afterwards.  When the
    camera refuses the call of [ContinuousMove], [RelativeMove],
    [AbsoluteMove] or [Stop], the exception propagates and statuses,
    timers and estimated position are exactly as before. *)
Theorem refused_call_leaves_tracker (cam : Camera) (w : world)
    (op : tracker_op) (call : ptz_request) (e : exn) :
  camera_call op = Some call ->
  ptz_service cam (sent w) call = Some e ->
  tracker_method cam op w = (inl e, record_sent (Zeep call) w) /\
  run_op cam w op = record_sent (Zeep call) w /\
  wrapper (run_op cam w op) = wrapper w.
Proof.
  intros Hcall Hcam.
  assert (Hrun : tracker_method cam op w = (inl e, record_sent (Zeep call) w)).
  { destruct op as [r|r|r|r|key]; cbn [camera_call] in Hcall;
      try discriminate; injection Hcall as <-; cbn [tracker_method];
      [ unfold ContinuousMove | unfold RelativeMove | unfold AbsoluteMove
      | unfold Stop ];
      unfold bind at 1; unfold call_ptz; now rewrite Hcam. }
  split; [exact Hrun|].
  assert (Hw : run_op cam w op = snd (tracker_method cam op w))
    by now destruct op.
  rewrite Hw, Hrun. now split.
Qed.

(** X15: after an accepted [AbsoluteMove], every axis present in the
    request is [MOVING] with a live timer of 3 seconds and its position
    components are the requested ones; an absent axis keeps status, timer
    and position. *)
Theorem absolute_move_tracking (cam : Camera) (request : AbsoluteMoveParams)
    (w : world) :
  ptz_service cam (sent w) (CamAbsoluteMove request) = None ->
  let '(result, w') := AbsoluteMove cam request w in
  let self := wrapper w in
  let self' := wrapper w' in
  result = inr tt /\
  sent w' = (sent w ++ [Zeep (CamAbsoluteMove request)])%list /\
  threads w' = threads w /\
  match v_PanTilt (am_Position request) with
  | Some pt =>
      _pan_tilt_status self' = MOVING /\
      _stop_timers self' !! "pantilt" = Some {| interval := 3; alive := true |} /\
      PanTilt_x (_estimated_position self') = pt_x pt /\
      PanTilt_y (_estimated_position self') = pt_y pt
  | None =>
      _pan_tilt_status self' = _pan_tilt_status self /\
      _stop_timers self' !! "pantilt" = _stop_timers self !! "pantilt" /\
      PanTilt_x (_estimated_position self') = PanTilt_x (_estimated_position self) /\
      PanTilt_y (_estimated_position self') = PanTilt_y (_estimated_position self)
  end /\
  match v_Zoom (am_Position request) with
  | Some z =>
      _zoom_status self' = MOVING /\
      _stop_timers self' !! "zoom" = Some {| interval := 3; alive := true |} /\
      Zoom_x (_estimated_position self') = z_x z
  | None =>
      _zoom_status self' = _zoom_status self /\
      _stop_timers self' !! "zoom" = _stop_timers self !! "zoom" /\
      Zoom_x (_estimated_position self') = Zoom_x (_estimated_position self)
  end.
Proof.
  intros Hok. unfold AbsoluteMove, bind, call_ptz. rewrite Hok.
  destruct (v_PanTilt (am_Position request)) as [pt|],
           (v_Zoom (am_Position request)) as [z|];
    unfold modify, ret; cbv beta iota zeta;
    rewrite ?wrapper_set_wrapper, ?wrapper_record_sent;
    unfold _set_pan_tilt_status, _set_zoom_status;
    cbn [is_moving andb]; change (lt 0 3) with true; cbv beta iota zeta;
    cbn [with_position with_timers with_pan_tilt_status with_zoom_status
         _pan_tilt_status _zoom_status _stop_timers
         _estimated_position PanTilt_x PanTilt_y Zoom_x];
    repeat split;
    rewrite ?lookup_insert_eq; try reflexivity;
    repeat first [ rewrite lookup_insert_ne by discriminate
                 | rewrite lookup_alter_ne by discriminate
                 | rewrite lookup_insert_eq ];
    reflexivity.
Qed.

(** X16: the tracker's [Stop] honours the flags of the request: after an
    accepted call a flagged axis is [IDLE] and its timer is cancelled, an
    axis that is not flagged keeps status and timer, and the position is
    kept. *)
Theorem stop_honours_flags (cam : Camera) (request : StopParams) (w : world) :
  ptz_service cam (sent w) (CamStop request) = None ->
  let '(result, w') := Stop cam request w in
  let self := wrapper w in
  let self' := wrapper w' in
  result = inr tt /\
  sent w' = (sent w ++ [Zeep (CamStop request)])%list /\
  threads w' = threads w /\
  _estimated_position self' = _estimated_position self /\
  (if st_PanTilt request
   then _pan_tilt_status self' = IDLE /\
        _stop_timers self' !! "pantilt" = cancel <$> _stop_timers self !! "pantilt"
   else _pan_tilt_status self' = _pan_tilt_status self /\
        _stop_timers self' !! "pantilt" = _stop_timers self !! "pantilt") /\
  (if st_Zoom request
   then _zoom_status self' = IDLE /\
        _stop_timers self' !! "zoom" = cancel <$> _stop_timers self !! "zoom"
   else _zoom_status self' = _zoom_status self /\
        _stop_timers self' !! "zoom" = _stop_timers self !! "zoom").
Proof.
  intros Hok. unfold Stop, bind, call_ptz. rewrite Hok.
  destruct (st_PanTilt request), (st_Zoom request);
    unfold when, modify, ret; cbv beta iota zeta;
    rewrite ?wrapper_set_wrapper, ?wrapper_record_sent;
    unfold _set_pan_tilt_status, _set_zoom_status;
    cbn [is_moving andb]; cbv beta iota zeta;
    cbn [with_position with_timers with_pan_tilt_status with_zoom_status
         _pan_tilt_status _zoom_status _stop_timers _estimated_position];
    repeat split;
    repeat first [ rewrite lookup_alter_eq
                 | rewrite lookup_alter_ne by discriminate ];
    reflexivity.
Qed.

End TrackerMethods.

Lemma refused_call_leaves_tracker_witness :
  let e := Exn OtherError "Action not supported" in
  let request :=
    {| am_ProfileToken := Some "PROFILE_000";
       am_Position :=
         {| v_PanTilt := Some {| pt_x := 1 # 2; pt_y := 0; pt_space := None |};
            v_Zoom := None |} |} in
  camera_call (OpAbsoluteMove request) = Some (CamAbsoluteMove request) /\
  ptz_service (failing_camera e) (sent world_at_rest) (CamAbsoluteMove request)
    = Some e /\
  wrapper (run_op (failing_camera e) world_at_rest (OpAbsoluteMove request))
    = wrapper_at_rest.
Proof.
  intros e request. split; [reflexivity|]. split; [reflexivity|].
  exact (proj2 (proj2 (refused_call_leaves_tracker (failing_camera e) world_at_rest
                         (OpAbsoluteMove request) (CamAbsoluteMove request) e
                         eq_refl eq_refl))).
Defined.

Lemma absolute_move_tracking_witness :
  let request :=
    {| am_ProfileToken := Some "PROFILE_000";
       am_Position :=
         {| v_PanTilt := Some {| pt_x := 1 # 2; pt_y := - (1 # 4); pt_space := None |};
            v_Zoom := None |} |} in
  ptz_service obliging_camera (sent world_at_rest) (CamAbsoluteMove request) = None /\
  let w' := snd (AbsoluteMove obliging_camera request world_at_rest) in
  _pan_tilt_status (wrapper w') = MOVING /\
  _zoom_status (wrapper w') = IDLE /\
  PanTilt_x (_estimated_position (wrapper w')) = (1 # 2)%Q.
Proof.
  intros request. split; [reflexivity|].
  pose proof (absolute_move_tracking obliging_camera request world_at_rest eq_refl)
    as Hthm.
  destruct (AbsoluteMove obliging_camera request world_at_rest) as [result w'].
  cbn [snd]. cbv zeta in Hthm.
  destruct Hthm as (_ & _ & _ & Hpt & Hzoom).
  cbn [request am_Position v_PanTilt v_Zoom] in Hpt, Hzoom.
  destruct Hpt as (Hstatus & _ & Hx & _). destruct Hzoom as (Hz & _).
  cbv zeta. split; [exact Hstatus|]. split; [exact Hz | exact Hx].
Defined.

Lemma stop_honours_flags_witness :
  let request :=
    {| st_ProfileToken := Some "PROFILE_000"; st_PanTilt := true; st_Zoom := false |} in
  let moving :=
    set_wrapper (fun self => _set_zoom_status MOVING 5 (_set_pan_tilt_status MOVING 5 self))
      world_at_rest in
  ptz_service obliging_camera (sent moving) (CamStop request) = None /\
  let w' := snd (Stop obliging_camera request moving) in
  _pan_tilt_status (wrapper w') = IDLE /\ _zoom_status (wrapper w') = MOVING.
Proof.
  intros request moving. split; [reflexivity|].
  pose proof (stop_honours_flags obliging_camera request moving eq_refl) as Hthm.
  destruct (Stop obliging_camera request moving) as [result w'].
  cbn [snd]. cbv zeta in Hthm.
  destruct Hthm as (_ & _ & _ & _ & Hpt & Hzoom).
  cbn [request st_PanTilt st_Zoom] in Hpt, Hzoom.
  cbv zeta. split; [exact (proj1 Hpt)|].
  rewrite (proj1 Hzoom). reflexivity.
Defined.

(** ** RelativeMove: the two branches that reach the camera *)

Section RelativeMoveTracking.
Context {rt : Runtime}.
Variable cam : Camera.

(** X17: a [RelativeMove] with a zoom translation and no pan/tilt is
    passed to the camera's own [RelativeMove] as parsed, and no thread is
    started.  When the camera accepts it, the answer is
    [RelativeMoveResponse] with status 200, the zoom axis is [MOVING]
    with a live timer of 2 seconds, the zoom position advances by the
    translation, clamped to [0, 1]; the pan/tilt status and timer are
    kept and the pan/tilt position is clamped to [-1, 1].  When the
    camera refuses, the exception propagates and the tracker is as
    before. *)
Theorem zoom_relative_move_passes_through (root : element) (w : world)
    (params : RelativeMoveParams) (zoom : Zoom) :
  parse_ptz_relative_move root = inr params ->
  v_PanTilt (rm_Translation params) = None ->
  v_Zoom (rm_Translation params) = Some zoom ->
  let '(result, w') := _handle_relative_move cam root w in
  let self := wrapper w in
  let self' := wrapper w' in
  sent w' = (sent w ++ [Zeep (CamRelativeMove params)])%list /\
  threads w' = threads w /\
  match ptz_service cam (sent w) (CamRelativeMove params) with
  | Some e => result = inl e /\ self' = self
  | None =>
      result = inr relative_move_response /\
      _zoom_status self' = MOVING /\
      _stop_timers self' !! "zoom" = Some {| interval := 2; alive := true |} /\
      Zoom_x (_estimated_position self')
        = max 0 (min 1 (Zoom_x (_estimated_position self) + z_x zoom)%Q) /\
      _pan_tilt_status self' = _pan_tilt_status self /\
      _stop_timers self' !! "pantilt" = _stop_timers self !! "pantilt" /\
      PanTilt_x (_estimated_position self')
        = max (-1) (min 1 (PanTilt_x (_estimated_position self))) /\
      PanTilt_y (_estimated_position self')
        = max (-1) (min 1 (PanTilt_y (_estimated_position self)))
  end.
Proof.
  intros Hparse Hpt Hzoom.
  unfold _handle_relative_move. rewrite reraise_run.
  unfold bind at 1, lift. rewrite Hparse. cbv beta iota zeta.
  rewrite Hpt, Hzoom. unfold bind at 1.
  unfold RelativeMove, bind at 1, call_ptz.
  destruct (ptz_service cam (sent w) (CamRelativeMove params)) as [e|].
  - now repeat split.
  - rewrite Hpt, Hzoom. unfold bind, modify, ret. cbv beta iota zeta.
    rewrite ?wrapper_set_wrapper, ?wrapper_record_sent.
    split; [reflexivity|]. split; [reflexivity|]. split; [reflexivity|].
    pose proof (set_zoom_status_facts MOVING 2 (wrapper w)) as Hz.
    cbv zeta in Hz. cbn [is_moving andb] in Hz. change (lt 0 2) with true in Hz.
    destruct Hz as (Hz1 & Hz2 & Hz3 & Hz4 & Hz5).
    pose proof (update_estimated_position_frame None (Some zoom) 0 None
                  (_set_zoom_status MOVING 2 (wrapper w))) as Hf.
    cbv zeta in Hf. destruct Hf as (Hf1 & Hf2 & Hf3).
    rewrite Hf1, Hf2, Hf3.
    repeat (split; [assumption|]).
    unfold _update_estimated_position.
    cbn [with_position _estimated_position PanTilt_x PanTilt_y Zoom_x mbind option_bind].
    rewrite Hz3. now repeat split.
Qed.

(** X18: a pan/tilt [RelativeMove] from start to finish, with a camera
    that accepts [ContinuousMove].  For a translation that is not (0, 0),
    when the handler returns both axes are [MOVING] with a live timer of
    5 seconds (the synthesised [ContinuousMove] carries a zoom velocity
    and no timeout) and one thread is pending; when that thread sends its
    zero-velocity [ContinuousMove], both axes are [IDLE], both timers are
    cancelled, and the estimated position is what the first call left. *)
Theorem relative_move_then_follow_up (root : element) (w : world)
    (params : RelativeMoveParams) (pan_tilt : PanTilt) :
  parse_ptz_relative_move root = inr params ->
  v_PanTilt (rm_Translation params) = Some pan_tilt ->
  ~ ((pt_x pan_tilt == 0)%Q /\ (pt_y pan_tilt == 0)%Q) ->
  (forall history request,
     ptz_service cam history (CamContinuousMove request) = None) ->
  let '(_, w1) := _handle_relative_move cam root w in
  _pan_tilt_status (wrapper w1) = MOVING /\
  _zoom_status (wrapper w1) = MOVING /\
  _stop_timers (wrapper w1) !! "pantilt" = Some {| interval := 5; alive := true |} /\
  _stop_timers (wrapper w1) !! "zoom" = Some {| interval := 5; alive := true |} /\
  exists follow_up,
    threads w1 = (threads w ++ [follow_up])%list /\
    let w2 := snd (stop_movement cam follow_up w1) in
    _pan_tilt_status (wrapper w2) = IDLE /\
    _zoom_status (wrapper w2) = IDLE /\
    _stop_timers (wrapper w2) !! "pantilt" = Some {| interval := 5; alive := false |} /\
    _stop_timers (wrapper w2) !! "zoom" = Some {| interval := 5; alive := false |} /\
    _estimated_position (wrapper w2) = _estimated_position (wrapper w1).
Proof.
  intros Hparse Hpt Hnz Hcam.
  unfold _handle_relative_move. rewrite reraise_run.
  unfold bind at 1, lift. rewrite Hparse. cbv beta iota zeta.
  rewrite Hpt. unfold bind at 1. unfold bind at 1.
  rewrite (ContinuousMove_accepted _ _ _ (Hcam _ _)).
  unfold modify, ret. cbv beta iota.
  set (vx := if lt 0 (pt_x pan_tilt) then _ else _).
  set (vy := if lt 0 (pt_y pan_tilt) then _ else _).
  cbn [cm_Velocity cm_Timeout v_PanTilt v_Zoom move_duration].
  assert (Hstop : is_stop {| v_PanTilt := Some {| pt_x := vx; pt_y := vy; pt_space := None |};
                             v_Zoom := Some {| z_x := 0; z_space := None |} |} = false).
  { destruct (is_stop _) eqn:Hs; [|reflexivity]. exfalso. apply Hnz.
    apply is_stop_spec in Hs. destruct Hs as [Hs _].
    destruct (Hs _ eq_refl) as [Hx Hy]. cbn [pt_x pt_y] in Hx, Hy.
    subst vx vy. split.
    - destruct (lt 0 (pt_x pan_tilt)) eqn:H1; [discriminate|].
      destruct (lt (pt_x pan_tilt) 0) eqn:H2; [discriminate|].
      rewrite lt_false in H1, H2. lra.
    - destruct (lt 0 (pt_y pan_tilt)) eqn:H1; [discriminate|].
      destruct (lt (pt_y pan_tilt) 0) eqn:H2; [discriminate|].
      rewrite lt_false in H1, H2. lra. }
  rewrite Hstop.
  change (bool_decide (is_Some (Some ?x))) with true. cbv iota zeta.
  set (velocity := Build_PTZVector _ _).
  set (start := record_sent _ w).
  cbn [wrapper start_thread set_wrapper]. cbv beta.
  change (wrapper start) with (wrapper w).
  pose proof (set_pan_tilt_status_facts MOVING 5 (wrapper w)) as Hp.
  pose proof (set_zoom_status_facts MOVING 5
                (_set_pan_tilt_status MOVING 5 (wrapper w))) as Hz.
  cbv zeta in Hp, Hz. cbn [is_moving andb] in Hp, Hz.
  change (lt 0 5) with true in Hp, Hz.
  destruct Hp as (Hp1 & Hp2 & Hp3 & Hp4 & Hp5).
  destruct Hz as (Hz1 & Hz2 & Hz3 & Hz4 & Hz5).
  pose proof (update_estimated_position_frame None None 5 (Some velocity)
                (_set_zoom_status MOVING 5
                   (_set_pan_tilt_status MOVING 5 (wrapper w)))) as Hf.
  cbv zeta in Hf. destruct Hf as (Hf1 & Hf2 & Hf3).
  set (self1 := _update_estimated_position _ _ _ _ _) in *.
  split; [congruence|]. split; [congruence|].
  split; [congruence|]. split; [congruence|].
  eexists. split; [reflexivity|].
  cbv zeta. unfold stop_movement, try_except. cbn [stop_params].
  rewrite (ContinuousMove_accepted _ _ _ (Hcam _ _)).
  cbn [snd cm_Velocity]. change (is_stop zero_velocity) with true. cbv iota zeta.
  rewrite wrapper_set_wrapper, wrapper_record_sent.
  cbn [wrapper start_thread set_wrapper]. change (wrapper start) with (wrapper w).
  fold self1.
  pose proof (set_pan_tilt_status_facts IDLE 0 self1) as Hq.
  pose proof (set_zoom_status_facts IDLE 0 (_set_pan_tilt_status IDLE 0 self1)) as Hy.
  cbv zeta in Hq, Hy. cbn [is_moving andb] in Hq, Hy.
  destruct Hq as (Hq1 & Hq2 & Hq3 & Hq4 & Hq5).
  destruct Hy as (Hy1 & Hy2 & Hy3 & Hy4 & Hy5).
  assert (H5p : _stop_timers self1 !! "pantilt" = Some {| interval := 5; alive := true |})
    by congruence.
  assert (H5z : _stop_timers self1 !! "zoom" = Some {| interval := 5; alive := true |})
    by congruence.
  rewrite H5p in Hq5. rewrite Hq4, H5z in Hy5.
  change (cancel <$> Some {| interval := 5; alive := true |})
    with (Some {| interval := 5; alive := false |}) in Hq5, Hy5.
  repeat split; congruence.
Qed.

End RelativeMoveTracking.

Lemma zoom_relative_move_passes_through_witness :
  let root := zoom_relative_move_request "0.25" in
  let zoom := {| z_x := 1 # 4; z_space := Some "" |} in
  let params :=
    {| rm_ProfileToken := Some "PROFILE_000";
       rm_Translation := {| v_PanTilt := None; v_Zoom := Some zoom |} |} in
  parse_ptz_relative_move (rt := Reference.runtime) root = inr params /\
  v_PanTilt (rm_Translation params) = None /\
  v_Zoom (rm_Translation params) = Some zoom /\
  let '(result, w') :=
    _handle_relative_move (rt := Reference.runtime) obliging_camera root
      world_at_rest in
  result = inr relative_move_response /\
  sent w' = [ Zeep (CamRelativeMove params) ] /\
  threads w' = [] /\
  _zoom_status (wrapper w') = MOVING.
Proof.
  intros root zoom params.
  assert (Hparse : parse_ptz_relative_move (rt := Reference.runtime) root = inr params)
    by (vm_compute; reflexivity).
  split; [exact Hparse|]. split; [reflexivity|]. split; [reflexivity|].
  pose proof (zoom_relative_move_passes_through (rt := Reference.runtime)
                obliging_camera root world_at_rest params zoom Hparse
                eq_refl eq_refl) as Hthm.
  destruct (_handle_relative_move obliging_camera root world_at_rest)
    as [result w'].
  cbv zeta in Hthm. destruct Hthm as (Hsent & Hthreads & Hrest).
  cbn [obliging_camera ptz_service] in Hrest.
  destruct Hrest as (Hres & Hstatus & _).
  split; [exact Hres|]. split; [exact Hsent|].
  split; [exact Hthreads | exact Hstatus].
Defined.

Lemma relative_move_then_follow_up_witness :
  let root :=
    relative_move_request
      [ Element (clark TT "PanTilt") [("x", "0.2"); ("y", "0.0")] None [] ] in
  let pan_tilt := {| pt_x := 1 # 5; pt_y := 0; pt_space := Some "" |} in
  let params :=
    {| rm_ProfileToken := Some "PROFILE_000";
       rm_Translation := {| v_PanTilt := Some pan_tilt; v_Zoom := None |} |} in
  parse_ptz_relative_move (rt := Reference.runtime) root = inr params /\
  v_PanTilt (rm_Translation params) = Some pan_tilt /\
  ~ ((pt_x pan_tilt == 0)%Q /\ (pt_y pan_tilt == 0)%Q) /\
  (forall history request,
     ptz_service obliging_camera history (CamContinuousMove request) = None) /\
  let '(_, w1) :=
    _handle_relative_move (rt := Reference.runtime) obliging_camera root
      world_at_rest in
  _pan_tilt_status (wrapper w1) = MOVING /\
  _zoom_status (wrapper w1) = MOVING /\
  exists follow_up,
    threads w1 = [follow_up] /\
    _pan_tilt_status (wrapper (snd (stop_movement obliging_camera follow_up w1)))
      = IDLE /\
    _zoom_status (wrapper (snd (stop_movement obliging_camera follow_up w1)))
      = IDLE.
Proof.
  intros root pan_tilt params.
  assert (Hparse : parse_ptz_relative_move (rt := Reference.runtime) root = inr params)
    by (vm_compute; reflexivity).
  assert (Hnz : ~ ((pt_x pan_tilt == 0)%Q /\ (pt_y pan_tilt == 0)%Q))
    by (intros [Hx _]; discriminate Hx).
  assert (Hcam : forall history request,
            ptz_service obliging_camera history (CamContinuousMove request) = None)
    by reflexivity.
  split; [exact Hparse|]. split; [reflexivity|]. split; [exact Hnz|].
  split; [exact Hcam|].
  pose proof (relative_move_then_follow_up (rt := Reference.runtime)
                obliging_camera root world_at_rest params pan_tilt Hparse
                eq_refl Hnz Hcam) as Hthm.
  destruct (_handle_relative_move obliging_camera root world_at_rest)
    as [result w1].
  destruct Hthm as (Hpt & Hzoom & _ & _ & follow_up & Hthreads & Hafter).
  split; [exact Hpt|]. split; [exact Hzoom|].
  exists follow_up. cbv zeta in Hafter.
  destruct Hafter as (Hidle & Hzidle & _).
  split; [exact Hthreads|]. split; [exact Hidle | exact Hzidle].
Defined.

(** ** Camera forwarder: the request that goes out *)

Section ForwarderRequest.

Lemma service_url_is_base_plus_name (self : ONVIFServiceProxy) (service url : string) :
  service_urls self !! service = Some url -> url = base_url self +:+ service.
Proof.
  intros Hlook. unfold service_urls in Hlook.
  apply elem_of_list_to_map_2 in Hlook.
  repeat (apply elem_of_cons in Hlook as [[= -> ->]|Hlook]; [reflexivity|]).
  now apply elem_of_nil in Hlook.
Qed.

(** X19: [forward_request] never raises and sends exactly one POST.  Its
    URL is [http://<camera_ip>:<camera_port>/onvif/<service>] for every
    service name, in the catalogue or not; its body is the request with
    the addresses rewritten.  When the camera answers, the status code
    is passed on as it is, 2xx or not, and the body is the answer with
    the addresses rewritten back; when the POST raises, the status is
    500. *)
Theorem forward_request_answers (cam : Camera) (self : ONVIFServiceProxy)
    (service soap_body : string) (timeout : Z) (w : world) :
  let request := build_request self service soap_body timeout in
  let '(result, w') := forward_request cam self service soap_body timeout w in
  w' = record_sent (Post request) w /\
  req_url request = base_url self +:+ service /\
  req_data request = rewrite_request self soap_body /\
  req_timeout request = timeout /\
  match requests_post cam (sent w) request with
  | HttpResponse text status_code =>
      result = inr (rewrite_response self text, status_code)
  | HttpRaise _ => exists fault, result = inr (fault, 500%Z)
  end.
Proof.
  cbv zeta.
  assert (Hurl : req_url (build_request self service soap_body timeout)
                 = base_url self +:+ service).
  { unfold build_request. cbn [req_url].
    destruct (service_urls self !! service) as [url|] eqn:Hlook; [|reflexivity].
    apply service_url_is_base_plus_name in Hlook.
    now destruct url. }
  unfold forward_request, bind, post.
  destruct (requests_post cam (sent w) _) as [text code|e].
  - now repeat split.
  - destruct (is_Timeout e); [|destruct (is_ConnectionError e)];
      (split; [reflexivity|]; split; [exact Hurl|]; split; [reflexivity|];
       split; [reflexivity|]; eexists; reflexivity).
Qed.

End ForwarderRequest.

(** ** Request router: which names reach the interceptor *)

Section ServiceNames.

Lemma substring_all (s : string) : String.substring 0 (String.length s) s = s.
Proof. induction s as [|c s IH]; [reflexivity|]. cbn. now rewrite IH. Qed.

Lemma substring_append (a s : string) :
  String.substring (String.length a) (String.length s) (a +:+ s) = s.
Proof.
  induction a as [|c a IH].
  - rewrite append_nil_l. apply substring_all.
  - rewrite append_cons. cbn [String.length String.substring]. exact IH.
Qed.

Lemma endswith_append (a s : string) : endswith (a +:+ s) s = true.
Proof.
  unfold endswith. rewrite length_append.
  replace (String.length a + String.length s - String.length s)%nat
    with (String.length a) by lia.
  rewrite substring_append, String.eqb_refl, andb_true_r.
  apply Nat.leb_le. lia.
Qed.

(** X20: whatever the service name in the URL, the normalised name ends
    in [_service]. *)
Theorem normalized_service_ends_in_service (service : string) :
  endswith (normalized_service service) "_service" = true.
Proof.
  unfold normalized_service.
  repeat match goal with
  | |- context [String.eqb service ?k] => destruct (String.eqb service k)
  end; cbn [orb]; try reflexivity.
  destruct (endswith service "_service") eqn:Hends; cbn [negb];
    [exact Hends | apply endswith_append].
Qed.

Lemma substring_split (n : nat) (s : string) :
  (n <= String.length s)%nat ->
  s = String.substring 0 n s +:+ String.substring n (String.length s - n) s.
Proof.
  revert n. induction s as [|c s IH]; intros n Hn.
  - destruct n; [reflexivity | cbn in Hn; lia].
  - destruct n as [|n].
    + cbn [String.substring]. rewrite append_nil_l.
      change (String.length (String c s) - 0)%nat with (S (String.length s)).
      cbn [String.substring]. now rewrite substring_all.
    + cbn [String.length] in *. cbn [String.substring Nat.sub].
      rewrite append_cons. f_equal. apply IH. lia.
Qed.

Lemma endswith_inv (s suffix : string) :
  endswith s suffix = true -> exists a, s = a +:+ suffix.
Proof.
  unfold endswith. intros [Hlen Heq]%andb_true_iff.
  apply Nat.leb_le in Hlen. apply String.eqb_eq in Heq.
  exists (String.substring 0 (String.length s - String.length suffix) s).
  pose proof (substring_split (String.length s - String.length suffix) s
                ltac:(lia)) as Hsplit.
  replace (String.length s - (String.length s - String.length suffix))%nat
    with (String.length suffix) in Hsplit by lia.
  now rewrite Heq in Hsplit.
Qed.

(** [rstrip] removes a run of the character at the end, and nothing
    else. *)
Lemma rstrip_spec (c : ascii) (s : string) :
  exists n, s = rstrip c s +:+ run_of c n.
Proof.
  induction s as [|a s [n IH]]; [now exists 0%nat|].
  cbn [rstrip]. destruct (rstrip c s) as [|b r] eqn:Hr.
  - rewrite append_nil_l in IH. destruct (Ascii.eqb_spec a c) as [->|_].
    + exists (S n). rewrite append_nil_l. cbn [run_of]. now rewrite <- IH.
    + exists n. rewrite append_cons, append_nil_l. now rewrite <- IH.
  - exists n. rewrite append_cons. now rewrite <- IH.
Qed.

Lemma rstrip_run_of (c : ascii) (n : nat) : rstrip c (run_of c n) = "".
Proof.
  induction n as [|n IH]; [reflexivity|].
  cbn [run_of rstrip]. now rewrite IH, Ascii.eqb_refl.
Qed.

Lemma rstrip_keeps_service (a : string) :
  rstrip "s" (a +:+ "_service") = a +:+ "_service".
Proof.
  induction a as [|c a IH]; [reflexivity|].
  rewrite append_cons. cbn [rstrip]. rewrite IH.
  destruct a; reflexivity.
Qed.

Lemma not_a_service_name (n : nat) :
  endswith ("ptz" +:+ run_of "s" n) "_service" = false.
Proof.
  destruct (endswith _ _) eqn:Hends; [|reflexivity].
  apply endswith_inv in Hends as [a Ha].
  apply (f_equal (rstrip "s")) in Ha. rewrite rstrip_keeps_service in Ha.
  assert (Hptz : rstrip "s" ("ptz" +:+ run_of "s" n) = "ptz").
  { rewrite !append_cons, append_nil_l. cbn [rstrip]. now rewrite rstrip_run_of. }
  rewrite Hptz in Ha. apply (f_equal String.length) in Ha.
  rewrite length_append in Ha. cbn in Ha. lia.
Qed.

(** X21: the service names that reach the interceptor.  The normalised
    name is [ptz_service] exactly for [ptz_service], [ptz_services] and
    [ptz] followed by any number of [s]: [ptz], [ptzs], [ptzss], ...  No
    other path segment is intercepted; the comparison is case
    sensitive. *)
Theorem intercepted_service_names (service : string) :
  normalized_service service = "ptz_service" <->
  service = "ptz_service" \/ service = "ptz_services" \/
  exists n, service = "ptz" +:+ run_of "s" n.
Proof.
  split.
  - intros Hnorm.
    destruct (String.eqb_spec service "ptz_service") as [->|Hn1]; [now left|].
    destruct (String.eqb_spec service "ptz_services") as [->|Hn2]; [now right; left|].
    right; right.
    destruct (decide (service ∈
                [ "ptz_services"; "ptz_service"; "media_services"; "media_service";
                  "device_services"; "device_service";
                  "event_services"; "event_service" ])) as [Hin|Hout].
    { repeat (apply elem_of_cons in Hin as [Hin|Hin];
              [subst service; try contradiction; discriminate Hnorm|]).
      now apply elem_of_nil in Hin. }
    rewrite (normalized_service_generic _ Hout) in Hnorm.
    destruct (endswith service "_service"); [contradiction|].
    destruct (rstrip_spec "s" service) as [n Hn]. exists n.
    assert (Hr : rstrip "s" service = "ptz"); [|now rewrite Hr in Hn].
    destruct (rstrip "s" service) as [|c1 [|c2 [|c3 r]]];
      try discriminate Hnorm.
    rewrite !append_cons in Hnorm. injection Hnorm as -> -> -> Hrest.
    f_equal. f_equal. f_equal.
    apply (f_equal String.length) in Hrest. rewrite length_append in Hrest.
    destruct r; [reflexivity | cbn in Hrest; lia].
  - intros [->|[->|[n ->]]]; [reflexivity | reflexivity |].
    rewrite normalized_service_generic.
    + rewrite not_a_service_name.
      rewrite !append_cons, append_nil_l. cbn [rstrip].
      now rewrite rstrip_run_of.
    + intros Hin. repeat (apply elem_of_cons in Hin as [Hin|Hin];
        [rewrite !append_cons, append_nil_l in Hin; destruct n; discriminate Hin|]).
      now apply elem_of_nil in Hin.
Qed.

End ServiceNames.

(** ** Capability splicer: where the FOV space goes *)

Section SplicerInsertion.
Context {rt : Runtime}.




End SplicerInsertion.


(** ** SOAP envelope: the operation name *)

Section Envelope.
Context {rt : Runtime}.




End Envelope.


(** ** ContinuousMove: the timeout *)

Section Durations.
Context {rt : Runtime}.







End Durations.


(** ** Address rewriter: the response direction *)

Section RewriterResponse.

(** X25: when the proxy is reached under the camera's own host and port,
    both rewrites leave every payload as it is. *)
Theorem rewrite_is_identity_for_equal_identities (self : ONVIFServiceProxy)
    (payload : string) :
  proxy_host self = camera_ip self ->
  proxy_port self = camera_port self ->
  rewrite_request self payload = payload /\
  rewrite_response self payload = payload.
Proof.
  intros Hhost Hport. unfold rewrite_request, rewrite_response.
  rewrite Hhost, Hport. now rewrite !replace_same.
Qed.

(** X26: the response direction of the rewriter.  For a payload made of
    literal text and the camera's tokens (host, [:port/], [:port<]) in
    which each pass finds exactly those tokens, [rewrite_response] yields
    the same payload with the proxy's tokens, and [rewrite_request] of
    that yields the camera's payload again.  A response in which the
    camera host does not occur, and in which the camera's port tokens do
    not occur or are the proxy's, is returned as it came. *)
Theorem rewrite_response_round_trip (self : ONVIFServiceProxy)
    (segs : list segment) (x : string) :
  well_tokenised self segs = true ->
  contains (camera_ip self) x = false ->
  (proxy_port self = camera_port self \/
   (contains (port_slash (camera_port self)) x = false /\
    contains (port_lt (camera_port self)) x = false)) ->
  rewrite_response self (render (camera_form self) segs)
    = render (proxy_form self) segs /\
  rewrite_request self (rewrite_response self (render (camera_form self) segs))
    = render (camera_form self) segs /\
  rewrite_response self x = x.
Proof.
  intros Hwt Hhost Hports.
  unfold well_tokenised in Hwt. cbv zeta in Hwt.
  repeat match type of Hwt with
  | (_ && _) = true => apply andb_true_iff in Hwt as [Hwt ?]
  end.
  assert (Hresp : rewrite_response self (render (camera_form self) segs)
                  = render (proxy_form self) segs).
  { unfold rewrite_response.
    rewrite (replace_render (camera_form self) Host) by assumption.
    rewrite (replace_render (respell (camera_form self) Host (proxy_host self))
               PortSlash) by (reflexivity || assumption).
    rewrite (replace_render
               (respell (respell (camera_form self) Host (proxy_host self))
                  PortSlash (port_slash (proxy_port self)))
               PortLt) by (reflexivity || assumption).
    apply render_ext. intros []; reflexivity. }
  assert (Hreq : rewrite_request self (render (proxy_form self) segs)
                 = render (camera_form self) segs).
  { unfold rewrite_request.
    rewrite (replace_render (proxy_form self) Host) by assumption.
    rewrite (replace_render (respell (proxy_form self) Host (camera_ip self))
               PortSlash) by (reflexivity || assumption).
    rewrite (replace_render
               (respell (respell (proxy_form self) Host (camera_ip self))
                  PortSlash (port_slash (camera_port self)))
               PortLt) by (reflexivity || assumption).
    apply render_ext. intros []; reflexivity. }
  split; [exact Hresp|]. split; [now rewrite Hresp|].
  unfold rewrite_response. rewrite (replace_absent _ _ _ Hhost).
  destruct Hports as [->|[Hslash Hlt]].
  - now rewrite !replace_same.
  - now rewrite (replace_absent _ _ _ Hslash), (replace_absent _ _ _ Hlt).
Qed.

End RewriterResponse.

Lemma rewrite_is_identity_for_equal_identities_witness :
  let self :=
    {| camera_ip := "127.0.0.1"; camera_port := 8000;
       proxy_host := "127.0.0.1"; proxy_port := 8000 |} in
  let payload := "<XAddr>http://127.0.0.1:8000/onvif/ptz_service</XAddr>" in
  proxy_host self = camera_ip self /\
  proxy_port self = camera_port self /\
  rewrite_request self payload = payload /\
  rewrite_response self payload = payload.
Proof.
  intros self payload. split; [reflexivity|]. split; [reflexivity|].
  exact (rewrite_is_identity_for_equal_identities self payload eq_refl eq_refl).
Defined.

Lemma rewrite_response_round_trip_witness :
  let segs :=
    [ Text "<XAddr>http://"; Tok Host; Tok PortSlash;
      Text "onvif/device_service</XAddr>" ] in
  let x := "<Address>http://127.0.0.1:8000/onvif/ptz_service</Address>" in
  well_tokenised scenario_proxy segs = true /\
  contains (camera_ip scenario_proxy) x = false /\
  render (camera_form scenario_proxy) segs
    = "<XAddr>http://192.168.1.10:8000/onvif/device_service</XAddr>" /\
  rewrite_response scenario_proxy (render (camera_form scenario_proxy) segs)
    = "<XAddr>http://127.0.0.1:8000/onvif/device_service</XAddr>" /\
  rewrite_request scenario_proxy
    (rewrite_response scenario_proxy (render (camera_form scenario_proxy) segs))
    = render (camera_form scenario_proxy) segs /\
  rewrite_response scenario_proxy x = x.
Proof.
  intros segs x.
  assert (Hwt : well_tokenised scenario_proxy segs = true) by (vm_compute; reflexivity).
  assert (Hhost : contains (camera_ip scenario_proxy) x = false) by (vm_compute; reflexivity).
  destruct (rewrite_response_round_trip scenario_proxy segs x Hwt Hhost
              (or_introl eq_refl)) as (Hresp & Htrip & Hsame).
  split; [exact Hwt|]. split; [exact Hhost|].
  split; [vm_compute; reflexivity|].
  split; [rewrite Hresp; vm_compute; reflexivity|].
  split; [exact Htrip | exact Hsame].
Defined.
